(** * Stylometric analysis of Latin texts: a shallow embedding of [app.py]

    The development follows the script top to bottom: the corpus loader and
    the model training of [load_and_train_model], the evaluator
    [identify_confusion_errors], and the body of the script (prediction, the
    locality parameters of the two projections, the table of distances to
    the author centroids).

    Conventions.
    - A Python [str] is a [string]: the sequence of its UTF-8 bytes.  The
      operations the script applies to file names ([endswith], [in],
      [split], the slice [[:-4]]) only look for the ASCII text [.txt] and
      the ASCII separator [_], so they act on bytes as they do on code
      points.
    - A raised exception is a value [Raise e] of [result]; statements are
      sequenced with the bind of that monad.  The working directory is an
      explicit argument, the listing with what reading each entry gives.
    - Numbers are exact rationals.  A Euclidean distance is kept as the
      rational under its square root ([distance]), and distances are
      compared through those squares.  The two library routines that rank
      the centroids of a row are given in binary64 as well ([Float64]),
      where they can disagree.
    - The script is a sequence of calls into NumPy, SciPy and
      scikit-learn.  The routines whose result is determined exactly
      ([np.argmin], [np.unique], [cdist], the nearest-centroid classifier,
      the confusion matrix) are defined here after their documentation,
      with the argument checks that make them raise; of the vectorizer and
      of the factorization only those checks are defined, and their
      numerics are parameters of the pipeline. *)

From Stdlib Require Import ZArith QArith Lia Ascii String.
From Stdlib Require PrimFloat Uint63.
From stdpp Require Import base tactics option list list_numbers sorting strings.


(** ** Exceptions *)

(** The exception classes that the script and the library calls it makes
    can raise. *)
Inductive exn : Type :=
  | ValueError
  | IndexError
  | OSError
  | UnicodeDecodeError.

Inductive result (A : Type) : Type :=
  | Ok (a : A)
  | Raise (e : exn).
Arguments Ok {A} a.
Arguments Raise {A} e.

#[global] Instance result_ret : MRet result := @Ok.
#[global] Instance result_bind : MBind result := fun A B f m =>
  match m with
  | Ok a => f a
  | Raise e => Raise e
  end.
#[global] Instance result_fmap : FMap result := fun A B f m =>
  match m with
  | Ok a => Ok (f a)
  | Raise e => Raise e
  end.

Definition is_Ok {A} (m : result A) : Prop := exists a, m = Ok a.
Definition is_Raise {A} (m : result A) : Prop := exists e, m = Raise e.

(** [l[i]] for a non-negative index: [IndexError] out of range. *)
Definition getitem {A} (l : list A) (i : nat) : result A :=
  match l !! i with
  | Some x => Ok x
  | None => Raise IndexError
  end.

(** ** The [str] operations used on file names *)

Module Str.

(** [s.endswith(suffix)] *)
Fixpoint endswith (s suffix : string) : bool :=
  if String.eqb s suffix then true
  else match s with
       | EmptyString => false
       | String _ s' => endswith s' suffix
       end.

(** [sep in s], for a separator of one character *)
Fixpoint contains (sep : ascii) (s : string) : bool :=
  match s with
  | EmptyString => false
  | String c s' => if Ascii.eqb c sep then true else contains sep s'
  end.

(** [s.split(sep)], for a separator of one character: the pieces between
    the occurrences of [sep], never an empty list. *)
Fixpoint split (sep : ascii) (s : string) : list string :=
  match s with
  | EmptyString => [EmptyString]
  | String c s' =>
      if Ascii.eqb c sep then EmptyString :: split sep s'
      else match split sep s' with
           | [] => [String c EmptyString]
           | piece :: pieces => String c piece :: pieces
           end
  end.

(** [s[:-n]]: everything but the last [n] characters. *)
Definition drop_last (n : nat) (s : string) : string :=
  String.substring 0 (String.length s - n) s.

End Str.

(** ** The working directory *)

(** One entry of [os.listdir('./data/')]: its name, and what
    [open(path, 'r', encoding='utf-8')] followed by [f.read()] gives for it,
    the decoded text or the exception raised (a directory, an unreadable
    file, bytes that are not UTF-8). *)
Record dirent : Type := Dirent {
  d_name : string;
  d_read : result string
}.

(** The listing, in the order [os.listdir] returns it. *)
Abbreviation directory := (list dirent).

(** ** Corpus loader (lines 37-51 of [load_and_train_model]) *)

Definition is_txt (filename : string) : bool := Str.endswith filename ".txt".

(** Lines 45-48. *)
Definition author_of (filename : string) : string :=
  if Str.contains "_" filename
  then match Str.split "_" filename with
       | a :: _ => a
       | [] => EmptyString
       end
  else "Desconocido".

(** Line 51. *)
Definition display_name (filename : string) : string := Str.drop_last 4 filename.

(** The three lists the loop appends to, always together. *)
Record corpus : Type := Corpus {
  texts : list string;
  labels : list string;
  filenames : list string
}.

Definition corpus_cons (text author name : string) (c : corpus) : corpus :=
  {| texts := text :: texts c;
     labels := author :: labels c;
     filenames := name :: filenames c |}.

(** The [for filename in os.listdir(corpus_path)] loop.  The first entry
    that cannot be read aborts the whole function. *)
Fixpoint read_corpus (listing : directory) : result corpus :=
  match listing with
  | [] => Ok {| texts := []; labels := []; filenames := [] |}
  | entry :: rest =>
      if is_txt (d_name entry) then
        text ← d_read entry;
        c ← read_corpus rest;
        Ok (corpus_cons text (author_of (d_name entry)) (display_name (d_name entry)) c)
      else read_corpus rest
  end.

(** The entries the loop keeps, in listing order. *)
Definition txt_entries (listing : directory) : directory :=
  filter (fun e => is_txt (d_name e)) listing.

(** ** Arrays *)

Abbreviation vector := (list Q).

(** A two-dimensional array, row by row; its rows have one length. *)
Abbreviation matrix := (list (list Q)).

(** [X.shape[1]] *)
Definition n_features (X : matrix) : nat :=
  match X with
  | [] => 0
  | row :: _ => length row
  end.

Definition Qsum (l : list Q) : Q := foldr Qplus 0%Q l.

(** The Euclidean distance [sqrt q], kept as [q]. *)
Record distance : Type := Sqrt { squared : Q }.

Definition dist_ltb (d1 d2 : distance) : bool :=
  negb (Qle_bool (squared d2) (squared d1)).

Definition euclidean (u v : vector) : distance :=
  Sqrt (Qsum (zip_with (fun a b => (a - b) * (a - b))%Q u v)).

(** [scipy.spatial.distance.cdist(XA, XB, metric='euclidean')]: entry
    [i][j] is the distance from row [i] of [XA] to row [j] of [XB]. *)
Definition cdist (XA XB : matrix) : list (list distance) :=
  map (fun x => map (euclidean x) XB) XA.

(** The scan of [np.argmin]: the index of the first occurrence of the
    minimum. *)
Fixpoint argmin_scan (best_i : nat) (best : distance) (i : nat)
    (l : list distance) : nat :=
  match l with
  | [] => best_i
  | d :: l' =>
      if dist_ltb d best then argmin_scan i d (S i) l'
      else argmin_scan best_i best (S i) l'
  end.

(** [np.argmin(a)]; an empty sequence is a [ValueError]. *)
Definition np_argmin (a : list distance) : result nat :=
  match a with
  | [] => Raise ValueError
  | d :: l => Ok (argmin_scan 0 d 1 l)
  end.

(** Two rows hold the same numbers. *)
Definition row_eqb (u v : vector) : bool :=
  (length u =? length v) && forallb (fun p => Qeq_bool p.1 p.2) (zip u v).

(** [np.all(np.ptp(X, axis=0) == 0)]: no column of [X] varies, that is,
    all rows are equal. *)
Definition zero_variance (X : matrix) : bool :=
  match X with
  | [] => true
  | row :: rest => forallb (row_eqb row) rest
  end.

(** [np.unique(y)]: the distinct values, sorted. *)
Definition np_unique (y : list string) : list string :=
  merge_sort String.le (remove_dups y).

(** ** [sklearn.neighbors.NearestCentroid], Euclidean metric *)

Module NearestCentroid.

Record t : Type := Fitted {
  classes_ : list string;
  centroids_ : matrix
}.

(** [X[y == c]] *)
Definition rows_of_class (X : matrix) (y : list string) (c : string) : matrix :=
  (filter (fun p => p.2 = c) (zip X y)).*1.

(** [M.mean(axis=0)] for [M] with [width] columns. *)
Definition mean_axis0 (width : nat) (M : matrix) : vector :=
  map (fun j => (Qsum (map (fun row => nth j row 0%Q) M)
                 / inject_Z (Z.of_nat (length M)))%Q)
      (seq 0 width).

(** [fit(X, y)]: the arrays must have as many rows as labels and at
    least one column, and there must be at least two classes; the
    centroid of a class is the mean of its rows.  From release 1.6 on the
    library also rejects, after computing the centroids, a matrix none of
    whose columns varies (earlier releases do so only when a shrink
    threshold is set); the check is kept here, so that a fit that
    returns here returns under either release. *)
Definition fit (X : matrix) (y : list string) : result t :=
  if negb (length X =? length y) then Raise ValueError
  else if (n_features X =? 0) then Raise ValueError
  else
    let classes := np_unique y in
    if (length classes <? 2) then Raise ValueError
    else if zero_variance X then Raise ValueError
    else Ok {| classes_ := classes;
               centroids_ :=
                 map (fun c => mean_axis0 (n_features X) (rows_of_class X y c))
                     classes |}.

(** [predict(X)]: for every row, the class of the nearest centroid,
    [classes_[pairwise_distances_argmin(X, centroids_)]]. *)
Definition predict (clf : t) (X : matrix) : result (list string) :=
  mapM (fun x =>
          k ← np_argmin (map (euclidean x) (centroids_ clf));
          getitem (classes_ clf) k) X.

End NearestCentroid.

(** ** [sklearn.metrics.confusion_matrix] *)

(** The dictionary [{y: x for x, y in enumerate(labels)}]: the last
    position of a label. *)
Fixpoint label_to_ind (labels : list string) (x : string) : option nat :=
  match labels with
  | [] => None
  | y :: rest =>
      match label_to_ind rest x with
      | Some i => Some (S i)
      | None => if decide (x = y) then Some 0 else None
      end
  end.

(** The number of positions whose true label has index [i] and whose
    predicted label has index [j]. *)
Definition cm_count (labels : list string) (y_true y_pred : list string)
    (i j : nat) : nat :=
  length (filter (fun p => label_to_ind labels p.1 = Some i
                           /\ label_to_ind labels p.2 = Some j)
                 (zip y_true y_pred)).

(** [confusion_matrix(y_true, y_pred, labels=labels)].  The two label
    sequences must have one length, [labels] must not be empty, and unless
    [y_true] is empty one of its values must occur in [labels]. *)
Definition confusion_matrix (y_true y_pred labels : list string)
    : result (list (list nat)) :=
  if negb (length y_true =? length y_pred) then Raise ValueError
  else
    let n := length labels in
    if (n =? 0) then Raise ValueError
    else if bool_decide (y_true = []) then Ok (replicate n (replicate n 0))
    else if negb (existsb (fun l => bool_decide (l ∈ labels)) y_true)
    then Raise ValueError
    else Ok (map (fun i => map (cm_count labels y_true y_pred i) (seq 0 n))
                 (seq 0 n)).

(** ** Evaluator: [identify_confusion_errors] (lines 64-77) *)

Record confusion_record : Type := ConfusionRecord {
  true_label : string;
  predicted_label : string;
  misclassified_files : list string
}.

(** The comprehension of lines 70-71, from position [idx] on. *)
Fixpoint misclassified (ci cj : string) (y_pred filenames : list string)
    (idx : nat) (labels : list string) : result (list string) :=
  match labels with
  | [] => Ok []
  | label :: rest =>
      if bool_decide (label = ci) then
        p ← getitem y_pred idx;
        if bool_decide (p = cj) then
          f ← getitem filenames idx;
          fs ← misclassified ci cj y_pred filenames (S idx) rest;
          Ok (f :: fs)
        else misclassified ci cj y_pred filenames (S idx) rest
      else misclassified ci cj y_pred filenames (S idx) rest
  end.

(** One turn of the inner loop: the records appended for the cell
    [(i, j)], none or one.  [clf.classes_[i]] and [clf.classes_[j]] are
    read once here; the loop bounds keep both indices in range. *)
Definition confusion_cell (labels y_pred filenames : list string)
    (classes : list string) (cm : list (list nat)) (i j : nat)
    : result (list confusion_record) :=
  if negb (i =? j) then
    row ← getitem cm i;
    count ← getitem row j;
    if (0 <? count) then
      ci ← getitem classes i;
      cj ← getitem classes j;
      files ← misclassified ci cj y_pred filenames 0 labels;
      Ok [ {| true_label := ci; predicted_label := cj;
              misclassified_files := files |} ]
    else Ok []
  else Ok [].

Definition identify_confusion_errors (labels y_pred filenames : list string)
    (clf : NearestCentroid.t) : result (list confusion_record) :=
  let classes := NearestCentroid.classes_ clf in
  cm ← confusion_matrix labels y_pred classes;
  per_row ← mapM (fun i =>
                    per_cell ← mapM (confusion_cell labels y_pred filenames classes cm i)
                                    (seq 0 (length classes));
                    Ok (concat per_cell))
                 (seq 0 (length classes));
  Ok (concat per_row).

(** *** The evaluator's output in closed form *)

(** The display names of the documents of true label [ci] predicted as [cj]. *)
Definition files_of (ci cj : string) (labels y_pred filenames : list string)
    : list string :=
  (fun t => t.2) <$>
    filter (fun t => t.1.1 = ci /\ t.1.2 = cj) (zip (zip labels y_pred) filenames).

(** The records of the cell [(i, j)]: one when the cell is off the diagonal
    and not zero, none otherwise. *)
Definition cell_records (labels y_pred filenames classes : list string)
    (i j : nat) : list confusion_record :=
  match classes !! i, classes !! j with
  | Some ci, Some cj =>
      if decide (i <> j /\ 0 < cm_count classes labels y_pred i j)
      then [ {| true_label := ci; predicted_label := cj;
                misclassified_files := files_of ci cj labels y_pred filenames |} ]
      else []
  | _, _ => []
  end.

(** All cells, row by row. *)
Definition all_records (labels y_pred filenames classes : list string)
    : list confusion_record :=
  concat (map (fun i => concat (map (cell_records labels y_pred filenames classes i)
                                    (seq 0 (length classes))))
              (seq 0 (length classes))).

(** ** Training: [load_and_train_model] (lines 53-61) *)

(** The arguments the script constructs the two estimators with. *)
Record TfidfVectorizer : Type := {
  analyzer : string;
  ngram_range : Z * Z
}.

Record TruncatedSVD : Type := {
  n_components : nat;
  random_state : Z
}.

(** What [load_and_train_model] returns. *)
Record trained : Type := Trained {
  t_clf : NearestCentroid.t;
  t_vectorizer : TfidfVectorizer;
  t_svd : TruncatedSVD;
  t_texts : list string;
  t_labels : list string;
  t_filenames : list string;
  t_X_reduced : matrix
}.

(** The numerics of the two estimators, the weighting of the n-grams and
    the randomized solver of the factorization, involve logarithms, square
    roots and random projections; they are parameters of the model
    ([weights], [solver]).  What [fit_transform] does before it reaches
    them is modelled. *)

(** [TfidfVectorizer.fit_transform(raw_documents)]: a range of n-gram
    lengths whose lower bound exceeds the upper bound is rejected. *)
Definition TfidfVectorizer_fit_transform
    (weights : TfidfVectorizer -> list string -> result matrix)
    (self : TfidfVectorizer) (raw_documents : list string) : result matrix :=
  let '(min_n, max_n) := ngram_range self in
  if (min_n >? max_n)%Z then Raise ValueError
  else weights self raw_documents.

(** [TruncatedSVD.fit_transform(X)]: a rank above the number of features
    is rejected. *)
Definition TruncatedSVD_fit_transform
    (solver : TruncatedSVD -> matrix -> result matrix)
    (self : TruncatedSVD) (X : matrix) : result matrix :=
  if (n_features X <? n_components self) then Raise ValueError
  else solver self X.

Section Pipeline.

Variable tfidf_weights : TfidfVectorizer -> list string -> result matrix.
Variable svd_solver : TruncatedSVD -> matrix -> result matrix.

Definition load_and_train_model (listing : directory) (ngram_min ngram_max : Z)
    : result trained :=
  c ← read_corpus listing;
  let vectorizer := {| analyzer := "char"; ngram_range := (ngram_min, ngram_max) |} in
  X ← TfidfVectorizer_fit_transform tfidf_weights vectorizer (texts c);
  let svd := {| n_components := 50; random_state := 42 |} in
  X_reduced ← TruncatedSVD_fit_transform svd_solver svd X;
  clf ← NearestCentroid.fit X_reduced (labels c);
  Ok {| t_clf := clf; t_vectorizer := vectorizer; t_svd := svd;
        t_texts := texts c; t_labels := labels c;
        t_filenames := filenames c; t_X_reduced := X_reduced |}.

End Pipeline.

(** ** The script body (lines 98-171) *)

(** The blocks that compute something the properties below are about: the
    predictions, the locality parameters of the two projections, the table
    of distances.  The drawing calls and the projections themselves
    produce nothing these blocks use. *)

(** Line 103. *)
Definition y_pred (m : trained) : result (list string) :=
  NearestCentroid.predict (t_clf m) (t_X_reduced m).

(** Line 110. *)
Definition n_samples (X_reduced : matrix) : Z := Z.of_nat (length X_reduced).

(** Line 113; [//] is the floor division of [Z]. *)
Definition perplexity (X_reduced : matrix) : Z :=
  Z.min 30 (Z.max 2 (n_samples X_reduced / 3)).

(** Line 126. *)
Definition n_neighbors (X_reduced : matrix) : Z :=
  Z.min 15 (Z.max 2 (n_samples X_reduced / 3)).

(** *** The table of distances (lines 140-151) *)

(** A value stored in a row: a string, or [round(d, 5)] for a distance. *)
Inductive cell : Type :=
  | Str (s : string)
  | Round5 (d : distance).

(** A Python [dict] with string keys, in insertion order. *)
Abbreviation dict := (list (string * cell)).

(** [d[k] = v]: an existing key keeps its place, a new key goes last. *)
Fixpoint dict_set (k : string) (v : cell) (d : dict) : dict :=
  match d with
  | [] => [(k, v)]
  | (k', v') :: d' =>
      if decide (k' = k) then (k', v) :: d'
      else (k', v') :: dict_set k v d'
  end.

Fixpoint dict_get (d : dict) (k : string) : option cell :=
  match d with
  | [] => None
  | (k', v') :: d' => if decide (k' = k) then Some v' else dict_get d' k
  end.

(** The inner loop of lines 147-148, from column [j] on. *)
Fixpoint fill_distances (distances : list (list distance)) (i : nat)
    (row : dict) (j : nat) (clf_classes : list string) : result dict :=
  match clf_classes with
  | [] => Ok row
  | author :: rest =>
      di ← getitem distances i;
      d ← getitem di j;
      fill_distances distances i
        (dict_set ("Distancia_" +:+ author) (Round5 d) row) (S j) rest
  end.

(** Lines 146-150: the row of the document at position [i]. *)
Definition table_row (labels : list string) (distances : list (list distance))
    (clf_classes : list string) (i : nat) (fname : string) : result dict :=
  author ← getitem labels i;
  row ← fill_distances distances i
          [("Texto", Str fname); ("Autor", Str author)] 0 clf_classes;
  di ← getitem distances i;
  k ← np_argmin di;
  closest_author ← getitem clf_classes k;
  Ok (dict_set "Más cercano" (Str closest_author) row).

(** The loop of line 145, from position [i] on. *)
Fixpoint table_rows (labels : list string) (distances : list (list distance))
    (clf_classes : list string) (i : nat) (filenames : list string)
    : result (list dict) :=
  match filenames with
  | [] => Ok []
  | fname :: rest =>
      row ← table_row labels distances clf_classes i fname;
      rows ← table_rows labels distances clf_classes (S i) rest;
      Ok (row :: rows)
  end.

(** Lines 140-151. *)
Definition distance_matrix (m : trained) : result (list dict) :=
  let distances := cdist (t_X_reduced m) (NearestCentroid.centroids_ (t_clf m)) in
  let clf_classes := NearestCentroid.classes_ (t_clf m) in
  table_rows (t_labels m) distances clf_classes 0 (t_filenames m).

(** ** Stand-ins for the numerical routines *)

(** Executable replacements for the two parameters of the pipeline, to run
    it on concrete corpora: the raw counts of the character n-grams of the
    corpus for the weights (an empty vocabulary is rejected, as the
    library does), the leading columns for the factorization. *)
Module Standin.

Definition ngrams (n : nat) (s : string) : list string :=
  if (n =? 0) then []
  else map (fun i => String.substring i n s) (seq 0 (String.length s + 1 - n)).

Definition char_ngrams (lo hi : Z) (s : string) : list string :=
  concat (map (fun n => ngrams n s)
              (seq (Z.to_nat lo) (Z.to_nat hi + 1 - Z.to_nat lo))).

Definition tfidf (v : TfidfVectorizer) (docs : list string) : result matrix :=
  let '(lo, hi) := ngram_range v in
  let vocabulary := np_unique (concat (map (char_ngrams lo hi) docs)) in
  if bool_decide (vocabulary = []) then Raise ValueError
  else Ok (map (fun doc =>
                  map (fun g => inject_Z (Z.of_nat
                         (length (filter (fun h => h = g) (char_ngrams lo hi doc)))))
                      vocabulary)
               docs).

Definition svd (p : TruncatedSVD) (X : matrix) : result matrix :=
  Ok (map (take (n_components p)) X).

End Standin.

(** ** Sample directories *)

Module Sample.

Definition file (name text : string) : dirent :=
  {| d_name := name; d_read := Ok text |}.

(** Three short texts by two authors. *)
Definition short : directory :=
  [ file "Seneca_A.txt" "text A";
    file "Seneca_B.txt" "text B";
    file "Cicero_C.txt" "text C" ].

(** Three longer texts by two authors, and two entries the loader must
    skip or label with the sentinel. *)
Definition latin : directory :=
  [ file "Caesar_BelloGallico.txt" "gallia est omnis divisa in partes tres";
    file "notes.md" "not a text of the corpus";
    file "Cicero_Catilinam.txt" "quo usque tandem abutere catilina patientia nostra";
    file "Caesar_BelloCivili.txt" "litteris caesaris consulibus redditis aegre ab his";
    file "anonymus.txt" "arma virumque cano troiae qui primus ab oris" ].

(** One text only. *)
Definition single : directory :=
  [ file "Seneca_DeBeneficiis.txt" "inter multos ac varios errores temere viventium" ].


(** A file name that starts with the separator. *)
Definition headless : directory :=
  [ file "Seneca_Epistulae.txt" "ita fac mi lucili";
    file "_foo.txt" "incerti auctoris" ].

End Sample.

(** ** The properties, in the words of the specification *)

Module Spec.

(** [filename] is [stem] followed by the extension. *)
Definition has_extension (ext filename : string) : Prop :=
  exists stem, filename = stem +:+ ext.

Definition occurs (sep : ascii) (s : string) : Prop :=
  exists before after, s = before +:+ String sep after.

(** [prefix] is the part of [s] before its first [sep]. *)
Definition before_first (sep : ascii) (s prefix : string) : Prop :=
  (exists after, s = prefix +:+ String sep after) /\ ~ occurs sep prefix.

(** The author label of a file name: what precedes the first underscore,
    or the sentinel when there is no underscore. *)
Definition author_label (filename author : string) : Prop :=
  before_first "_" filename author
  \/ (~ occurs "_" filename /\ author = "Desconocido").

(** The locality parameter of a projection for a corpus of [n] documents:
    [min(library default, max(2, n div 3))]. *)
Definition locality (library_default n : nat) : nat :=
  Nat.min library_default (Nat.max 2 (n / 3)).

(** The entry [cm[i, j]], zero outside the matrix. *)
Definition cell (cm : list (list nat)) (i j : nat) : nat :=
  match cm !! i with
  | Some row => default 0 (row !! j)
  | None => 0
  end.

(** The sum of the entries off the diagonal. *)
Definition off_diagonal_total (cm : list (list nat)) : nat :=
  sum_list_with
    (fun i => sum_list_with (fun j => if decide (i = j) then 0 else cell cm i j)
                            (seq 0 (length cm)))
    (seq 0 (length cm)).

(** [k] is the first position of [l] that holds its minimum. *)
Definition is_argmin (k : nat) (l : list distance) : Prop :=
  exists dk, l !! k = Some dk /\
    forall j dj, l !! j = Some dj ->
      (squared dk <= squared dj)%Q /\ (j < k -> (squared dk < squared dj)%Q).


End Spec.


(** ** The rest of the script body *)

(** *** The confusion matrix (line 104) *)

(** Line 104, on the predictions of line 103. *)
Definition cm (m : trained) : result (list (list nat)) :=
  preds ← y_pred m;
  confusion_matrix (t_labels m) preds (NearestCentroid.classes_ (t_clf m)).

(** Sums over a matrix of counts. *)
Module Totals.

(** The sum of the entries of row [i]. *)
Definition row_total (cm : list (list nat)) (i : nat) : nat :=
  sum_list_with (Spec.cell cm i) (seq 0 (length cm)).

(** The sum of the entries of column [j]. *)
Definition column_total (cm : list (list nat)) (j : nat) : nat :=
  sum_list_with (fun i => Spec.cell cm i j) (seq 0 (length cm)).

(** The sum of the entries on the diagonal. *)
Definition trace (cm : list (list nat)) : nat :=
  sum_list_with (fun i => Spec.cell cm i i) (seq 0 (length cm)).

End Totals.

(** *** The displayed table (lines 154-167) *)

(** [s.startswith(prefix)] *)
Definition startswith (s prefix : string) : bool := String.prefix prefix s.

(** The keys of a row, in insertion order. *)
Definition keys (row : dict) : list string := row.*1.

(** The column labels of [pd.DataFrame(rows)] for a list of dictionaries:
    the keys of the rows in the order of their first appearance. *)
Fixpoint add_columns (seen ks : list string) : list string :=
  match ks with
  | [] => seen
  | k :: ks' =>
      if bool_decide (k ∈ seen) then add_columns seen ks'
      else add_columns (seen ++ [k]) ks'
  end.

Definition DataFrame_columns (rows : list dict) : list string :=
  foldl (fun seen row => add_columns seen (keys row)) [] rows.

(** Line 157. *)
Definition cols (df_columns : list string) : list string :=
  ["Texto"; "Autor"; "Más cercano"]
  ++ filter (fun col => startswith col "Distancia") df_columns.

(** Line 158, [df_distances[cols]]: the new column labels, or nothing when
    a requested label is not a column (a [KeyError]). *)
Definition select_columns (df_columns cols : list string) : option (list string) :=
  if forallb (fun col => bool_decide (col ∈ df_columns)) cols then Some cols else None.

(** Line 166. *)
Definition dist_cols (df_columns : list string) : list string :=
  filter (fun col => startswith col "Distancia") df_columns.

(** The distance column of an author. *)
Definition distance_column (author : string) : string := "Distancia_" +:+ author.

(** [s.min()] of a series of numbers; an empty series has none. *)
Definition series_min (s : list Q) : option Q :=
  match s with
  | [] => None
  | v :: s' => Some (foldl (fun m w => if Qle_bool m w then m else w) v s')
  end.

(** [highlight_min] (lines 161-163): the style of every entry of [s], green
    for the entries equal to the minimum. *)
Definition highlight_min (s : list Q) : list string :=
  map (fun v =>
         match series_min s with
         | Some m => if Qeq_bool v m then "background-color: lightgreen" else ""
         | None => ""
         end) s.

(** The number held by a cell of a distance column, for a given rounding
    of distances to five decimals. *)
Definition number (round5 : distance -> Q) (c : cell) : option Q :=
  match c with
  | Round5 d => Some (round5 d)
  | Str _ => None
  end.

(** Line 167, for one row: [highlight_min] applied to the entries of the
    row in the columns [dist_cols]. *)
Definition row_styles (round5 : distance -> Q) (dist_cols : list string) (row : dict)
    : option (list string) :=
  s ← mapM (fun col => dict_get row col ≫= number round5) dist_cols;
  Some (highlight_min s).

(** ** The two nearest-centroid routines in binary64 *)

(** The script finds the nearest centroid of a row twice, with two
    library routines: line 103 calls [clf.predict], which ranks the
    centroids with scikit-learn's [pairwise_distances_argmin]; lines 140
    and 149 call SciPy's [cdist] and [np.argmin].  In exact arithmetic both
    select the first centroid at the least distance, as the definitions
    above do.  In the binary64 arithmetic of the program they evaluate
    different formulas: [cdist] takes the square root of the sum of the
    squared differences, scikit-learn expands the square into
    [x.x - 2 x.y + y.y] (the formula its [euclidean_distances] documents,
    with a warning about cancellation) and clips the result at zero.
    [Float64] is the binary64 computation of the two, on the IEEE 754
    numbers of the kernel.  Sums run from the first column on; the
    libraries may add in another order, which changes nothing for rows
    with a single column that is not zero. *)
Module Float64.

Abbreviation float := PrimFloat.float.

Definition of_Z (n : Z) : float := PrimFloat.of_uint63 (Uint63.of_Z n).

Definition sum (l : list float) : float := foldl PrimFloat.add (of_Z 0) l.

(** [np.dot(u, v)] *)
Definition dot (u v : list float) : float := sum (zip_with PrimFloat.mul u v).

(** One entry of [cdist(XA, XB, metric='euclidean')]. *)
Definition euclidean (u v : list float) : float :=
  PrimFloat.sqrt
    (sum (zip_with (fun a b => let d := PrimFloat.sub a b in PrimFloat.mul d d) u v)).

Definition cdist (XA XB : list (list float)) : list (list float) :=
  map (fun x => map (euclidean x) XB) XA.

(** The squared distance by which [pairwise_distances_argmin] ranks. *)
Definition sqeuclidean (x y : list float) : float :=
  let d := PrimFloat.add
             (PrimFloat.sub (dot x x) (PrimFloat.mul (of_Z 2) (dot x y)))
             (dot y y) in
  if PrimFloat.ltb d (of_Z 0) then of_Z 0 else d.

Fixpoint argmin_scan (best_i : nat) (best : float) (i : nat) (l : list float) : nat :=
  match l with
  | [] => best_i
  | d :: l' =>
      if PrimFloat.ltb d best then argmin_scan i d (S i) l'
      else argmin_scan best_i best (S i) l'
  end.

(** [np.argmin(a)] *)
Definition np_argmin (a : list float) : result nat :=
  match a with
  | [] => Raise ValueError
  | d :: l => Ok (argmin_scan 0 d 1 l)
  end.

(** [pairwise_distances_argmin(X, Y)] *)
Definition pairwise_distances_argmin (X Y : list (list float)) : result (list nat) :=
  mapM (fun x => np_argmin (map (sqeuclidean x) Y)) X.

(** [X[y == c].mean(axis=0)] for [X] with [width] columns. *)
Definition centroid (width : nat) (X : list (list float)) (y : list string)
    (c : string) : list float :=
  let M := (filter (fun p => p.2 = c) (zip X y)).*1 in
  map (fun j => PrimFloat.div (sum (map (fun row => nth j row (of_Z 0)) M))
                              (of_Z (Z.of_nat (length M))))
      (seq 0 width).

(** The centroids that [fit] stores, one per class. *)
Definition centroids (X : list (list float)) (y classes : list string)
    : list (list float) :=
  map (centroid (length (default [] (head X))) X y) classes.

(** Line 103: [clf.predict(X_reduced)]. *)
Definition y_pred (classes : list string) (centroids X_reduced : list (list float))
    : result (list string) :=
  indices ← pairwise_distances_argmin X_reduced centroids;
  mapM (getitem classes) indices.

(** Lines 140 and 149: the label under [Más cercano] of every row. *)
Definition closest_authors (classes : list string)
    (centroids X_reduced : list (list float)) : result (list string) :=
  mapM (fun di => k ← np_argmin di; getitem classes k)
       (cdist X_reduced centroids).

End Float64.

(** Three documents by two authors whose reduced rows have 49 columns of
    zeros and differ by a few units of [2^-29] in the first one: the two
    texts of the second author lie at one unit from their centroid, the
    first of them at two units from the text of the first author. *)
Module NearTie.

Definition row (n : Z) : list Float64.float :=
  PrimFloat.div (Float64.of_Z n) (Float64.of_Z 536870912)
  :: replicate 49 (Float64.of_Z 0).

Definition X_reduced : list (list Float64.float) :=
  [row 300000016; row 300000018; row 300000020].

Definition labels : list string := ["Caesar"; "Cicero"; "Cicero"].

End NearTie.

(** * Properties *)

(** ** The [result] monad *)

Lemma bind_Ok {A B} (m : result A) (f : A -> result B) (b : B) :
  m ≫= f = Ok b <-> exists a, m = Ok a /\ f a = Ok b.
Proof.
  destruct m as [a|e]; simpl; split.
  - eauto.
  - intros (a' & ? & ?). by simplify_eq.
  - discriminate.
  - intros (a' & H & _). discriminate.
Qed.

Lemma mapM_Ok {A B} (f : A -> result B) (l : list A) (k : list B) :
  mapM f l = Ok k <-> Forall2 (fun x y => f x = Ok y) l k.
Proof.
  revert k. induction l as [|x l IH]; intros k; simpl.
  - split; [intros [= <-]; constructor|by inversion 1].
  - split.
    + intros (y & Hy & (k' & Hk' & [= <-])%bind_Ok)%bind_Ok.
      constructor; [done|by apply IH].
    + inversion 1 as [|? y ? k' Hy Hk']; subst.
      rewrite Hy. simpl. apply IH in Hk'. by rewrite Hk'.
Qed.

Lemma mapM_is_Ok {A B} (f : A -> result B) (l : list A) :
  Forall (fun x => is_Ok (f x)) l -> is_Ok (mapM f l).
Proof.
  induction 1 as [|x l [y Hy] _ [k Hk]]; simpl.
  - by eexists.
  - rewrite Hy. simpl. rewrite Hk. by eexists.
Qed.

Lemma getitem_Ok {A} (l : list A) (i : nat) (x : A) :
  getitem l i = Ok x <-> l !! i = Some x.
Proof. unfold getitem. destruct (l !! i); split; congruence. Qed.

Lemma mapM_Ok_map {A B} (f : A -> result B) (g : A -> B) (l : list A) :
  (forall x, x ∈ l -> f x = Ok (g x)) -> mapM f l = Ok (map g l).
Proof.
  intros Hfg. apply mapM_Ok. apply Forall2_fmap_r, Forall_Forall2_diag, Forall_forall.
  exact Hfg.
Qed.

(** ** File names *)

Lemma endswith_spec (s suffix : string) :
  Str.endswith s suffix = true <-> Spec.has_extension suffix s.
Proof.
  unfold Spec.has_extension. induction s as [|c s IH].
  - destruct suffix as [|c' suffix]; simpl; split; try done.
    + by exists "".
    + intros [[|c p] Hp]; simpl in Hp; discriminate.
  - change (Str.endswith (String c s) suffix)
      with (if String.eqb (String c s) suffix then true else Str.endswith s suffix).
    destruct (String.eqb_spec (String c s) suffix) as [<-|Hne].
    + split; [|done]. by exists "".
    + rewrite IH. split.
      * intros [p ->]. by exists (String c p).
      * intros [[|c' p] Hp]; simpl in Hp; [by subst|].
        injection Hp as -> ->. by exists p.
Qed.

Lemma contains_spec (sep : ascii) (s : string) :
  Str.contains sep s = true <-> Spec.occurs sep s.
Proof.
  unfold Spec.occurs. induction s as [|c s IH]; simpl.
  - split; [done|]. intros ([|c p] & r & H); discriminate.
  - destruct (Ascii.eqb_spec c sep) as [->|Hne].
    + split; [|done]. intros _. by exists "", s.
    + rewrite IH. split.
      * intros (p & r & ->). by exists (String c p), r.
      * intros ([|c' p] & r & H); simpl in H; injection H as -> ->; [done|].
        by exists p, r.
Qed.

Lemma split_head (sep : ascii) (s : string) :
  exists piece pieces,
    Str.split sep s = piece :: pieces /\
    Str.contains sep piece = false /\
    (Str.contains sep s = true -> exists after, s = piece +:+ String sep after).
Proof.
  induction s as [|c s (piece & pieces & Hsplit & Hpiece & Hs)]; simpl.
  - exists "", []. split; [done|]. split; done.
  - destruct (Ascii.eqb_spec c sep) as [->|Hne].
    + exists "", (Str.split sep s). split; [done|]. split; [done|].
      intros _. by exists s.
    + rewrite Hsplit. exists (String c piece), pieces.
      split; [done|]. split.
      * simpl. destruct (Ascii.eqb_spec c sep); [done|]. exact Hpiece.
      * intros [after ->]%Hs. by exists after.
Qed.

Lemma author_of_spec (filename : string) :
  Spec.author_label filename (author_of filename).
Proof.
  unfold author_of, Spec.author_label, Spec.before_first.
  destruct (split_head "_" filename) as (piece & pieces & -> & Hpiece & Hs).
  destruct (Str.contains "_" filename) eqn:Hc.
  - left. split; [by apply Hs|].
    rewrite <- contains_spec. by rewrite Hpiece.
  - right. split; [|done]. rewrite <- contains_spec. by rewrite Hc.
Qed.

Lemma string_app_cons (c : ascii) (s t : string) :
  String c s +:+ t = String c (s +:+ t).
Proof. reflexivity. Qed.

Lemma string_length_app (s t : string) :
  String.length (s +:+ t) = String.length s + String.length t.
Proof.
  induction s as [|c s IH]; [done|].
  rewrite string_app_cons. simpl. by rewrite IH.
Qed.

Lemma substring_app (stem suffix : string) :
  String.substring 0 (String.length stem) (stem +:+ suffix) = stem.
Proof.
  induction stem as [|c stem IH].
  - by destruct suffix.
  - rewrite string_app_cons. simpl. by rewrite IH.
Qed.

Lemma drop_last_app (stem suffix : string) :
  Str.drop_last (String.length suffix) (stem +:+ suffix) = stem.
Proof.
  unfold Str.drop_last. rewrite string_length_app.
  replace (String.length stem + String.length suffix - String.length suffix)
    with (String.length stem) by lia.
  apply substring_app.
Qed.

Lemma display_name_spec (filename : string) :
  is_txt filename = true -> filename = display_name filename +:+ ".txt".
Proof.
  intros [stem ->]%endswith_spec. unfold display_name.
  change 4 with (String.length ".txt"). by rewrite drop_last_app.
Qed.

(** ** Corpus loader *)

Lemma txt_entries_cons (e : dirent) (listing : directory) :
  txt_entries (e :: listing)
  = if is_txt (d_name e) then e :: txt_entries listing else txt_entries listing.
Proof.
  unfold txt_entries. rewrite filter_cons.
  destruct (is_txt (d_name e)); by case_decide.
Qed.

Lemma read_corpus_Ok (listing : directory) (c : corpus) :
  read_corpus listing = Ok c ->
  Forall2 (fun e text => d_read e = Ok text) (txt_entries listing) (texts c)
  /\ labels c = (fun e => author_of (d_name e)) <$> txt_entries listing
  /\ filenames c = (fun e => display_name (d_name e)) <$> txt_entries listing.
Proof.
  revert c. induction listing as [|e listing IH]; intros c; simpl.
  - intros [= <-]. by split; [constructor|].
  - rewrite txt_entries_cons. destruct (is_txt (d_name e)); [|by apply IH].
    intros (text & Hread & (c' & Hrest & [= <-])%bind_Ok)%bind_Ok.
    destruct (IH c' Hrest) as (Htexts & Hlabels & Hnames). simpl.
    split; [by constructor|]. by rewrite Hlabels, Hnames.
Qed.

Lemma read_corpus_is_Ok (listing : directory) :
  (forall e, e ∈ txt_entries listing -> is_Ok (d_read e)) ->
  is_Ok (read_corpus listing).
Proof.
  induction listing as [|e listing IH]; intros Hread; simpl.
  - by eexists.
  - rewrite txt_entries_cons in Hread. destruct (is_txt (d_name e)).
    + destruct (Hread e) as [text ->]; [by left|].
      destruct IH as [c ->]; [intros; apply Hread; by right|].
      by eexists.
    + by apply IH.
Qed.

Lemma read_corpus_lengths (listing : directory) (c : corpus) :
  read_corpus listing = Ok c ->
  length (texts c) = length (txt_entries listing)
  /\ length (labels c) = length (txt_entries listing)
  /\ length (filenames c) = length (txt_entries listing).
Proof.
  intros (Ht & -> & ->)%read_corpus_Ok. rewrite !length_fmap.
  by rewrite <- (Forall2_length _ _ _ Ht).
Qed.

(** C4: when every entry of the directory whose name ends in [.txt] can
    be read, the loader returns one document per such entry, in listing
    order: its text is the content read, its label is what precedes the
    first underscore of the file name or [Desconocido] when the name has no
    underscore, and its display name is the file name without [.txt].
    Entries with another extension give no document. *)
Theorem loader_documents (listing : directory) :
  (forall e, e ∈ txt_entries listing -> is_Ok (d_read e)) ->
  exists c, read_corpus listing = Ok c
    /\ Forall2 (fun e text => d_read e = Ok text) (txt_entries listing) (texts c)
    /\ Forall2 (fun e a => Spec.author_label (d_name e) a) (txt_entries listing) (labels c)
    /\ Forall2 (fun e f => d_name e = f +:+ ".txt") (txt_entries listing) (filenames c)
    /\ (forall e, e ∈ txt_entries listing
                  <-> e ∈ listing /\ Spec.has_extension ".txt" (d_name e)).
Proof.
  intros [c Hc]%read_corpus_is_Ok. exists c. split; [done|].
  destruct (read_corpus_Ok _ _ Hc) as (Htexts & -> & ->).
  split; [done|]. split; [|split].
  - apply Forall2_fmap_r, Forall_Forall2_diag, Forall_forall.
    intros e _. apply author_of_spec.
  - apply Forall2_fmap_r, Forall_Forall2_diag, Forall_forall.
    intros e [He%Is_true_true _]%list_elem_of_filter. by apply display_name_spec.
  - intros e. unfold txt_entries. rewrite list_elem_of_filter, Is_true_true.
    unfold is_txt. rewrite endswith_spec. tauto.
Qed.

Lemma loader_documents_witness :
  exists c, read_corpus Sample.latin = Ok c
    /\ labels c = ["Caesar"; "Cicero"; "Caesar"; "Desconocido"]
    /\ filenames c = ["Caesar_BelloGallico"; "Cicero_Catilinam";
                      "Caesar_BelloCivili"; "anonymus"].
Proof.
  destruct (loader_documents Sample.latin) as (c & Hc & _).
  - apply Forall_forall. vm_compute.
    repeat (constructor; [by eexists|]). constructor.
  - exists c. vm_compute in Hc. by injection Hc as <-.
Defined.

(** C10: a [.txt] entry whose name starts with the underscore gets the
    empty string as label, which is not the sentinel [Desconocido]. *)
Theorem leading_separator_label (listing : directory) (c : corpus)
    (i : nat) (e : dirent) (rest : string) :
  read_corpus listing = Ok c ->
  txt_entries listing !! i = Some e ->
  d_name e = String "_" rest ->
  labels c !! i = Some "" /\ "" <> "Desconocido".
Proof.
  intros (_ & -> & _)%read_corpus_Ok He Hname. split; [|done].
  rewrite list_lookup_fmap, He. simpl. by rewrite Hname.
Qed.

Lemma display_name_inj (a b : string) :
  is_txt a = true -> is_txt b = true -> display_name a = display_name b -> a = b.
Proof.
  intros Ha%display_name_spec Hb%display_name_spec Heq.
  rewrite Ha, Hb. by rewrite Heq.
Qed.

(** The entries of a directory have distinct names, so the display names
    of a corpus are distinct. *)
Lemma read_corpus_filenames_NoDup (listing : directory) (c : corpus) :
  NoDup (d_name <$> listing) -> read_corpus listing = Ok c -> NoDup (filenames c).
Proof.
  intros Hnames (_ & _ & ->)%read_corpus_Ok.
  assert (NoDup (d_name <$> txt_entries listing)) as Htxt.
  { apply (sublist_NoDup _ (d_name <$> listing)); [exact Hnames|].
    apply fmap_sublist, sublist_filter. }
  rewrite (list_fmap_compose d_name display_name).
  apply NoDup_fmap_2_strong; [|done].
  intros a b (ea & -> & [Ha%Is_true_true _]%list_elem_of_filter)%list_elem_of_fmap
             (eb & -> & [Hb%Is_true_true _]%list_elem_of_filter)%list_elem_of_fmap.
  by apply display_name_inj.
Qed.

Lemma leading_separator_label_witness :
  exists c, read_corpus Sample.headless = Ok c /\ labels c !! 1 = Some "".
Proof.
  exists {| texts := ["ita fac mi lucili"; "incerti auctoris"];
            labels := ["Seneca"; ""];
            filenames := ["Seneca_Epistulae"; "_foo"] |}.
  split; [reflexivity|].
  eapply (leading_separator_label Sample.headless _ 1 (Sample.file "_foo.txt" "incerti auctoris") "foo.txt");
    reflexivity.
Defined.

(** ** [np.argmin] *)

Lemma dist_ltb_lt (d1 d2 : distance) :
  dist_ltb d1 d2 = true <-> (squared d1 < squared d2)%Q.
Proof.
  unfold dist_ltb. rewrite negb_true_iff, <- not_true_iff_false, Qle_bool_iff.
  split; [apply Qnot_le_lt|apply Qlt_not_le].
Qed.

Lemma argmin_scan_spec (pre l : list distance) (best_i : nat) (best : distance) :
  pre !! best_i = Some best ->
  (forall j dj, pre !! j = Some dj ->
     (squared best <= squared dj)%Q /\ (j < best_i -> (squared best < squared dj)%Q)) ->
  Spec.is_argmin (argmin_scan best_i best (length pre) l) (pre ++ l).
Proof.
  revert pre best_i best. induction l as [|d l IH]; intros pre best_i best Hbest Hmin.
  - simpl. rewrite app_nil_r. by exists best.
  - simpl. assert (best_i < length pre) as Hlt by by eapply lookup_lt_Some.
    replace (pre ++ d :: l) with ((pre ++ [d]) ++ l) by by rewrite <- app_assoc.
    replace (S (length pre)) with (length (pre ++ [d]))
      by (rewrite length_app; simpl; lia).
    destruct (dist_ltb d best) eqn:Hd.
    + apply dist_ltb_lt in Hd.
      apply IH.
      * by rewrite lookup_app_r, Nat.sub_diag by lia.
      * intros j dj Hj. destruct (decide (j < length pre)) as [Hjlt|Hjge].
        -- rewrite lookup_app_l in Hj by done. destruct (Hmin j dj Hj) as [Hle _].
           split; [|intros _]; [apply Qlt_le_weak|]; by eapply Qlt_le_trans.
        -- rewrite lookup_app_r in Hj by lia.
           destruct (j - length pre) as [|n] eqn:Hn; simpl in Hj; [|done].
           simplify_eq. split; [apply Qle_refl|lia].
    + apply not_true_iff_false in Hd. rewrite dist_ltb_lt in Hd.
      apply Qnot_lt_le in Hd. apply IH.
      * by rewrite lookup_app_l.
      * intros j dj Hj. destruct (decide (j < length pre)) as [Hjlt|Hjge].
        -- rewrite lookup_app_l in Hj by done. by apply Hmin.
        -- rewrite lookup_app_r in Hj by lia.
           destruct (j - length pre) as [|n] eqn:Hn; simpl in Hj; [|done].
           simplify_eq. split; [done|lia].
Qed.

Lemma np_argmin_spec (l : list distance) (k : nat) :
  np_argmin l = Ok k -> Spec.is_argmin k l.
Proof.
  destruct l as [|d l]; simpl; [done|]. intros [= <-].
  apply (argmin_scan_spec [d] l 0 d); [done|].
  intros [|j] dj Hj; simpl in Hj; [|done]. simplify_eq.
  split; [apply Qle_refl|lia].
Qed.

Lemma np_argmin_is_Ok (l : list distance) : l <> [] -> is_Ok (np_argmin l).
Proof. destruct l; [done|]. intros _. by eexists. Qed.



(** ** Euclidean distance *)








(** ** [np.unique] *)

Lemma np_unique_NoDup (y : list string) : NoDup (np_unique y).
Proof.
  unfold np_unique. rewrite merge_sort_Permutation. apply NoDup_remove_dups.
Qed.

Lemma elem_of_np_unique (y : list string) (x : string) :
  x ∈ np_unique y <-> x ∈ y.
Proof.
  unfold np_unique. rewrite merge_sort_Permutation. apply elem_of_remove_dups.
Qed.

Lemma np_unique_length (y : list string) :
  length (np_unique y) = length (remove_dups y).
Proof. unfold np_unique. by rewrite merge_sort_Permutation. Qed.

(** ** Nearest-centroid classifier *)

Lemma fit_Ok (X : matrix) (y : list string) (clf : NearestCentroid.t) :
  NearestCentroid.fit X y = Ok clf ->
  length X = length y
  /\ n_features X <> 0
  /\ 2 <= length (NearestCentroid.classes_ clf)
  /\ NearestCentroid.classes_ clf = np_unique y
  /\ NearestCentroid.centroids_ clf
     = map (fun c => NearestCentroid.mean_axis0 (n_features X)
                       (NearestCentroid.rows_of_class X y c))
           (np_unique y).
Proof.
  unfold NearestCentroid.fit.
  destruct (Nat.eqb_spec (length X) (length y)) as [Hlen|]; simpl; [|done].
  destruct (Nat.eqb_spec (n_features X) 0) as [|Hfeat]; [done|].
  destruct (Nat.ltb_spec (length (np_unique y)) 2) as [|Hcls]; [done|].
  destruct (zero_variance X); [done|].
  intros [= <-]. simpl. by repeat split.
Qed.

Lemma fit_is_Ok (X : matrix) (y : list string) :
  length X = length y -> n_features X <> 0 -> 2 <= length (remove_dups y) ->
  zero_variance X = false ->
  is_Ok (NearestCentroid.fit X y).
Proof.
  intros Hlen Hfeat Hcls Hvar. unfold NearestCentroid.fit.
  destruct (Nat.eqb_spec (length X) (length y)); simpl; [|done].
  destruct (Nat.eqb_spec (n_features X) 0); [done|].
  rewrite np_unique_length, Hvar.
  destruct (Nat.ltb_spec (length (remove_dups y)) 2); [lia|]. by eexists.
Qed.

Lemma fit_few_classes (X : matrix) (y : list string) :
  length (remove_dups y) < 2 -> NearestCentroid.fit X y = Raise ValueError.
Proof.
  intros Hcls. unfold NearestCentroid.fit.
  destruct (negb _); [done|]. destruct (_ =? _); [done|].
  rewrite np_unique_length.
  by destruct (Nat.ltb_spec (length (remove_dups y)) 2); [|lia].
Qed.

Lemma fit_centroids_length (X : matrix) (y : list string) (clf : NearestCentroid.t) :
  NearestCentroid.fit X y = Ok clf ->
  length (NearestCentroid.centroids_ clf) = length (NearestCentroid.classes_ clf)
  /\ Forall (fun c => length c = n_features X) (NearestCentroid.centroids_ clf).
Proof.
  intros (_ & _ & _ & -> & ->)%fit_Ok. split; [by rewrite length_map|].
  apply Forall_forall. intros c (cls & -> & _)%list_elem_of_fmap.
  unfold NearestCentroid.mean_axis0. by rewrite length_map, length_seq.
Qed.

(** ** The two estimators *)

Lemma tfidf_fit_transform_inverted
    (weights : TfidfVectorizer -> list string -> result matrix)
    (v : TfidfVectorizer) (docs : list string) :
  ((ngram_range v).1 > (ngram_range v).2)%Z ->
  TfidfVectorizer_fit_transform weights v docs = Raise ValueError.
Proof.
  unfold TfidfVectorizer_fit_transform. destruct (ngram_range v) as [lo hi]. simpl.
  intros Hinv. by destruct (Z.gtb_spec lo hi); [|lia].
Qed.

Lemma tfidf_fit_transform_Ok
    (weights : TfidfVectorizer -> list string -> result matrix)
    (v : TfidfVectorizer) (docs : list string) (X : matrix) :
  TfidfVectorizer_fit_transform weights v docs = Ok X ->
  ((ngram_range v).1 <= (ngram_range v).2)%Z /\ weights v docs = Ok X.
Proof.
  unfold TfidfVectorizer_fit_transform. destruct (ngram_range v) as [lo hi]. simpl.
  destruct (Z.gtb_spec lo hi); [done|]. intros HX. split; [lia|done].
Qed.

Lemma svd_fit_transform_small
    (solver : TruncatedSVD -> matrix -> result matrix)
    (p : TruncatedSVD) (X : matrix) :
  n_features X < n_components p ->
  TruncatedSVD_fit_transform solver p X = Raise ValueError.
Proof.
  intros Hsmall. unfold TruncatedSVD_fit_transform.
  by destruct (Nat.ltb_spec (n_features X) (n_components p)); [|lia].
Qed.

Lemma svd_fit_transform_Ok
    (solver : TruncatedSVD -> matrix -> result matrix)
    (p : TruncatedSVD) (X X_reduced : matrix) :
  TruncatedSVD_fit_transform solver p X = Ok X_reduced ->
  n_components p <= n_features X /\ solver p X = Ok X_reduced.
Proof.
  unfold TruncatedSVD_fit_transform.
  destruct (Nat.ltb_spec (n_features X) (n_components p)); [done|]. by split.
Qed.

(** ** The pipeline *)

Section PipelineFacts.

Variable tfidf_weights : TfidfVectorizer -> list string -> result matrix.
Variable svd_solver : TruncatedSVD -> matrix -> result matrix.

Local Abbreviation pipeline := (load_and_train_model tfidf_weights svd_solver).

Lemma load_and_train_model_Ok (listing : directory) (lo hi : Z) (m : trained) :
  pipeline listing lo hi = Ok m ->
  exists c X,
    read_corpus listing = Ok c
    /\ TfidfVectorizer_fit_transform tfidf_weights
         {| analyzer := "char"; ngram_range := (lo, hi) |} (texts c) = Ok X
    /\ TruncatedSVD_fit_transform svd_solver
         {| n_components := 50; random_state := 42 |} X = Ok (t_X_reduced m)
    /\ NearestCentroid.fit (t_X_reduced m) (labels c) = Ok (t_clf m)
    /\ t_vectorizer m = {| analyzer := "char"; ngram_range := (lo, hi) |}
    /\ t_svd m = {| n_components := 50; random_state := 42 |}
    /\ t_texts m = texts c /\ t_labels m = labels c /\ t_filenames m = filenames c.
Proof.
  unfold load_and_train_model.
  intros (c & Hc & (X & HX & (Xr & HXr & (clf & Hclf & [= <-])%bind_Ok)%bind_Ok)%bind_Ok)%bind_Ok.
  exists c, X. simpl. by repeat split.
Qed.

(** The pipeline after a successful load and vectorization. *)
Lemma load_and_train_model_factorize (listing : directory) (lo hi : Z)
    (c : corpus) (X : matrix) :
  read_corpus listing = Ok c ->
  TfidfVectorizer_fit_transform tfidf_weights
    {| analyzer := "char"; ngram_range := (lo, hi) |} (texts c) = Ok X ->
  pipeline listing lo hi
  = (X_reduced ← TruncatedSVD_fit_transform svd_solver
                   {| n_components := 50; random_state := 42 |} X;
     clf ← NearestCentroid.fit X_reduced (labels c);
     Ok {| t_clf := clf;
           t_vectorizer := {| analyzer := "char"; ngram_range := (lo, hi) |};
           t_svd := {| n_components := 50; random_state := 42 |};
           t_texts := texts c; t_labels := labels c;
           t_filenames := filenames c; t_X_reduced := X_reduced |}).
Proof.
  intros Hc HX. unfold load_and_train_model. rewrite Hc. simpl. by rewrite HX.
Qed.

Lemma trained_aligned (listing : directory) (lo hi : Z) (m : trained) :
  pipeline listing lo hi = Ok m ->
  length (t_X_reduced m) = length (txt_entries listing)
  /\ t_labels m = (fun e => author_of (d_name e)) <$> txt_entries listing
  /\ t_filenames m = (fun e => display_name (d_name e)) <$> txt_entries listing.
Proof.
  intros (c & X & Hc & _ & _ & Hfit & _ & _ & _ & -> & ->)%load_and_train_model_Ok.
  apply fit_Ok in Hfit as (Hlen & _). apply read_corpus_Ok in Hc as (_ & Hl & Hf).
  rewrite Hlen, Hl, Hf. by rewrite length_fmap.
Qed.

(** C1, as amended: the factorization is always requested with rank 50
    and seed 42 on the matrix the vectorizer returned, whatever the numbers
    of documents and of terms; the rank is never clamped.  On a corpus
    with fewer than 50 terms the factorization rejects the rank and the
    pipeline fails with that [ValueError]; more generally an exception of
    the factorization is the pipeline's, and when the pipeline returns the
    corpus has at least 50 terms and the reduced matrix is what the solver
    gave for rank 50. *)
Theorem factorization_rank_fixed (listing : directory) (lo hi : Z)
    (c : corpus) (X : matrix) :
  read_corpus listing = Ok c ->
  TfidfVectorizer_fit_transform tfidf_weights
    {| analyzer := "char"; ngram_range := (lo, hi) |} (texts c) = Ok X ->
  (n_features X < 50 -> pipeline listing lo hi = Raise ValueError)
  /\ (forall e,
        TruncatedSVD_fit_transform svd_solver
          {| n_components := 50; random_state := 42 |} X = Raise e ->
        pipeline listing lo hi = Raise e)
  /\ (forall m, pipeline listing lo hi = Ok m ->
        t_svd m = {| n_components := 50; random_state := 42 |}
        /\ 50 <= n_features X
        /\ svd_solver (t_svd m) X = Ok (t_X_reduced m)).
Proof.
  intros Hc HX.
  assert (forall e,
    TruncatedSVD_fit_transform svd_solver
      {| n_components := 50; random_state := 42 |} X = Raise e ->
    pipeline listing lo hi = Raise e) as Hraise.
  { intros e He. rewrite (load_and_train_model_factorize _ _ _ c X Hc HX).
    by rewrite He. }
  split; [|split; [done|]].
  - intros Hsmall. apply Hraise. by apply svd_fit_transform_small.
  - intros m (c' & X' & Hc' & HX' & Hsvd & _ & _ & -> & _)%load_and_train_model_Ok.
    rewrite Hc in Hc'. injection Hc' as <-. rewrite HX in HX'. injection HX' as <-.
    split; [done|]. by apply svd_fit_transform_Ok in Hsvd.
Qed.

(** C9, as amended: a corpus with fewer than two distinct author labels
    (so also one with fewer than two documents) never yields a model: the
    pipeline raises.  The script has no check of its own; when loading,
    vectorization and factorization succeed, the exception is the
    [ValueError] of the nearest-centroid fitting.  Conversely the fitting,
    and with it the pipeline, succeeds as soon as the reduced matrix has
    one row per label, at least one column, two rows that differ, and two
    distinct labels. *)
Theorem few_labels_rejected_by_fit (listing : directory) (lo hi : Z) :
  (length (remove_dups ((fun e => author_of (d_name e)) <$> txt_entries listing)) < 2 ->
     is_Raise (pipeline listing lo hi)
     /\ forall c X X_reduced,
          read_corpus listing = Ok c ->
          TfidfVectorizer_fit_transform tfidf_weights
            {| analyzer := "char"; ngram_range := (lo, hi) |} (texts c) = Ok X ->
          TruncatedSVD_fit_transform svd_solver
            {| n_components := 50; random_state := 42 |} X = Ok X_reduced ->
          NearestCentroid.fit X_reduced (labels c) = Raise ValueError
          /\ pipeline listing lo hi = Raise ValueError)
  /\ (forall c X X_reduced,
        read_corpus listing = Ok c ->
        TfidfVectorizer_fit_transform tfidf_weights
          {| analyzer := "char"; ngram_range := (lo, hi) |} (texts c) = Ok X ->
        TruncatedSVD_fit_transform svd_solver
          {| n_components := 50; random_state := 42 |} X = Ok X_reduced ->
        length X_reduced = length (labels c) ->
        n_features X_reduced <> 0 ->
        2 <= length (remove_dups (labels c)) ->
        zero_variance X_reduced = false ->
        is_Ok (pipeline listing lo hi)).
Proof.
  split.
  - intros Hfew.
    assert (forall c X X_reduced,
      read_corpus listing = Ok c ->
      TfidfVectorizer_fit_transform tfidf_weights
        {| analyzer := "char"; ngram_range := (lo, hi) |} (texts c) = Ok X ->
      TruncatedSVD_fit_transform svd_solver
        {| n_components := 50; random_state := 42 |} X = Ok X_reduced ->
      NearestCentroid.fit X_reduced (labels c) = Raise ValueError
      /\ pipeline listing lo hi = Raise ValueError) as Hfit.
    { intros c X Xr Hc HX HXr.
      assert (NearestCentroid.fit Xr (labels c) = Raise ValueError) as Hfit.
      { apply fit_few_classes. by apply read_corpus_Ok in Hc as (_ & -> & _). }
      split; [done|]. rewrite (load_and_train_model_factorize _ _ _ c X Hc HX).
      rewrite HXr. simpl. by rewrite Hfit. }
    split; [|done]. unfold is_Raise.
    destruct (read_corpus listing) as [c|e] eqn:Hc;
      [|exists e; unfold load_and_train_model; by rewrite Hc].
    destruct (TfidfVectorizer_fit_transform tfidf_weights
                {| analyzer := "char"; ngram_range := (lo, hi) |} (texts c))
      as [X|e] eqn:HX;
      [|exists e; unfold load_and_train_model; rewrite Hc; simpl; by rewrite HX].
    destruct (TruncatedSVD_fit_transform svd_solver
                {| n_components := 50; random_state := 42 |} X)
      as [Xr|e] eqn:HXr;
      [|exists e; rewrite (load_and_train_model_factorize _ _ _ c X Hc HX);
        by rewrite HXr].
    exists ValueError. by eapply Hfit.
  - intros c X Xr Hc HX HXr Hlen Hfeat Hcls Hvar.
    destruct (fit_is_Ok Xr (labels c)) as [clf Hclf]; [done..|].
    rewrite (load_and_train_model_factorize _ _ _ c X Hc HX).
    rewrite HXr. simpl. rewrite Hclf. by eexists.
Qed.

(** C8: for every configuration with [ngram_min > ngram_max] the pipeline
    raises and returns no feature matrix.  The script passes the pair to
    the vectorizer unchanged and has no check of its own; the exception is
    the [ValueError] with which the vectorizer rejects the range, unless
    the loader has failed before. *)
Theorem inverted_ngram_range_rejected (listing : directory) (lo hi : Z) :
  (lo > hi)%Z ->
  is_Raise (pipeline listing lo hi)
  /\ forall c, read_corpus listing = Ok c ->
       TfidfVectorizer_fit_transform tfidf_weights
         {| analyzer := "char"; ngram_range := (lo, hi) |} (texts c)
         = Raise ValueError
       /\ pipeline listing lo hi = Raise ValueError.
Proof.
  intros Hinv.
  assert (forall c, read_corpus listing = Ok c ->
       TfidfVectorizer_fit_transform tfidf_weights
         {| analyzer := "char"; ngram_range := (lo, hi) |} (texts c)
         = Raise ValueError
       /\ pipeline listing lo hi = Raise ValueError) as Hraise.
  { intros c Hc.
    assert (TfidfVectorizer_fit_transform tfidf_weights
              {| analyzer := "char"; ngram_range := (lo, hi) |} (texts c)
            = Raise ValueError) as HX by by apply tfidf_fit_transform_inverted.
    split; [done|]. unfold load_and_train_model. rewrite Hc. simpl. by rewrite HX. }
  split; [|done]. destruct (read_corpus listing) as [c|e] eqn:Hc.
  - exists ValueError. by eapply Hraise.
  - exists e. unfold load_and_train_model. by rewrite Hc.
Qed.

End PipelineFacts.

Lemma inverted_ngram_range_rejected_witness :
  (4 > 2)%Z /\ load_and_train_model Standin.tfidf Standin.svd Sample.latin 4 2
               = Raise ValueError.
Proof.
  split; [lia|].
  destruct (inverted_ngram_range_rejected Standin.tfidf Standin.svd Sample.latin 4 2
              ltac:(lia)) as [_ Hraise].
  edestruct Hraise as [_ Hpipeline]; [vm_compute; reflexivity|exact Hpipeline].
Defined.

(** C1, counterexample: the three short texts give 3 rows and 18 terms.
    The factorization is requested with rank 50 and raises a [ValueError],
    which is the outcome of the pipeline; requested with the rank clamped
    to the available dimensions it returns, and the classifier can be
    fitted on its result. *)
Lemma rank_not_clamped :
  exists c X,
    read_corpus Sample.short = Ok c
    /\ TfidfVectorizer_fit_transform Standin.tfidf
         {| analyzer := "char"; ngram_range := (2, 4)%Z |} (texts c) = Ok X
    /\ length X = 3 /\ n_features X = 18
    /\ TruncatedSVD_fit_transform Standin.svd
         {| n_components := 50; random_state := 42 |} X = Raise ValueError
    /\ load_and_train_model Standin.tfidf Standin.svd Sample.short 2 4 = Raise ValueError
    /\ exists X_reduced,
         TruncatedSVD_fit_transform Standin.svd
           {| n_components := Nat.min 50 (Nat.min (length X) (n_features X));
              random_state := 42 |} X = Ok X_reduced
         /\ is_Ok (NearestCentroid.fit X_reduced (labels c)).
Proof.
  eexists _, _. split; [vm_compute; reflexivity|].
  split; [vm_compute; reflexivity|].
  split; [vm_compute; reflexivity|]. split; [vm_compute; reflexivity|].
  split; [vm_compute; reflexivity|]. split; [vm_compute; reflexivity|].
  eexists. split; [vm_compute; reflexivity|]. vm_compute. by eexists.
Qed.

Lemma factorization_rank_fixed_witness :
  load_and_train_model Standin.tfidf Standin.svd Sample.short 2 4 = Raise ValueError.
Proof.
  edestruct (factorization_rank_fixed Standin.tfidf Standin.svd Sample.short 2 4)
    as [Hsmall _]; [vm_compute; reflexivity..|].
  apply Hsmall. vm_compute. lia.
Defined.

(** C9, counterexample: with a single document the loader, the vectorizer
    and the factorization all return, the nearest-centroid fitting is
    reached and it is the fitting that raises, a [ValueError]. *)
Lemma single_document_reaches_fit :
  exists c X X_reduced,
    read_corpus Sample.single = Ok c
    /\ length (texts c) = 1
    /\ TfidfVectorizer_fit_transform Standin.tfidf
         {| analyzer := "char"; ngram_range := (2, 4)%Z |} (texts c) = Ok X
    /\ TruncatedSVD_fit_transform Standin.svd
         {| n_components := 50; random_state := 42 |} X = Ok X_reduced
    /\ NearestCentroid.fit X_reduced (labels c) = Raise ValueError
    /\ load_and_train_model Standin.tfidf Standin.svd Sample.single 2 4 = Raise ValueError.
Proof.
  eexists _, _, _. split; [vm_compute; reflexivity|].
  split; [reflexivity|].
  split; [vm_compute; reflexivity|].
  split; [vm_compute; reflexivity|].
  split; vm_compute; reflexivity.
Qed.

Lemma few_labels_rejected_by_fit_witness :
  is_Raise (load_and_train_model Standin.tfidf Standin.svd Sample.single 2 4)
  /\ is_Ok (load_and_train_model Standin.tfidf Standin.svd Sample.latin 2 4).
Proof.
  split.
  - apply (few_labels_rejected_by_fit Standin.tfidf Standin.svd Sample.single 2 4).
    vm_compute. lia.
  - eapply (few_labels_rejected_by_fit Standin.tfidf Standin.svd Sample.latin 2 4).
    + vm_compute. reflexivity.
    + vm_compute. reflexivity.
    + vm_compute. reflexivity.
    + vm_compute. reflexivity.
    + vm_compute. lia.
    + vm_compute. lia.
    + vm_compute. reflexivity.
Defined.

(** ** Centroids fed back to the classifier *)







(** ** Locality parameters of the projections *)

(** C7: the perplexity of the neighbour embedding is
    [min(30, max(2, n div 3))] and the neighbour count of the manifold
    technique is [min(15, max(2, n div 3))], for a corpus of [n]
    documents. *)
Theorem locality_parameters (X_reduced : matrix) :
  perplexity X_reduced = Z.of_nat (Spec.locality 30 (length X_reduced))
  /\ n_neighbors X_reduced = Z.of_nat (Spec.locality 15 (length X_reduced)).
Proof.
  unfold perplexity, n_neighbors, n_samples, Spec.locality.
  rewrite !Nat2Z.inj_min, !Nat2Z.inj_max, Nat2Z.inj_div. done.
Qed.

(** ** The table of distances *)

Lemma dict_get_set_eq (d : dict) (k : string) (v : cell) :
  dict_get (dict_set k v d) k = Some v.
Proof.
  induction d as [|[k' v'] d IH]; simpl.
  - by rewrite decide_True.
  - destruct (decide (k' = k)) as [->|Hne]; simpl.
    + by rewrite decide_True.
    + by rewrite decide_False.
Qed.

Lemma dict_get_set_ne (d : dict) (k k' : string) (v : cell) :
  k <> k' -> dict_get (dict_set k v d) k' = dict_get d k'.
Proof.
  intros Hne. induction d as [|[k0 v0] d IH]; simpl.
  - by rewrite decide_False.
  - destruct (decide (k0 = k)) as [->|Hne0]; simpl.
    + by rewrite !decide_False.
    + destruct (decide (k0 = k')); [done|]. exact IH.
Qed.

Lemma fill_distances_Ok (distances : list (list distance)) (i : nat)
    (di : list distance) (clf_classes : list string) (row : dict) (j : nat) :
  distances !! i = Some di ->
  j + length clf_classes <= length di ->
  exists row',
    fill_distances distances i row j clf_classes = Ok row'
    /\ (forall k, (forall a, a ∈ clf_classes -> k <> "Distancia_" +:+ a) ->
                  dict_get row' k = dict_get row k)
    /\ (NoDup clf_classes ->
        forall n a, clf_classes !! n = Some a ->
          dict_get row' ("Distancia_" +:+ a) = Round5 <$> di !! (j + n)).
Proof.
  intros Hi. revert row j.
  induction clf_classes as [|author rest IH]; intros row j Hj; simpl in *.
  - exists row. split; [done|]. split; [done|]. intros _ n a Hn. done.
  - destruct (lookup_lt_is_Some_2 di j) as [d Hd]; [lia|].
    destruct (IH (dict_set ("Distancia_" +:+ author) (Round5 d) row) (S j))
      as (row' & Hrow' & Hother & Hcells); [lia|].
    exists row'. split.
    { apply getitem_Ok in Hi, Hd. rewrite Hi. simpl. by rewrite Hd. }
    split.
    + intros k Hk. rewrite Hother.
      * apply dict_get_set_ne. intros Heq. by apply (Hk author); [left|].
      * intros a Ha. apply Hk. by right.
    + intros [Hfresh Hnodup]%NoDup_cons [|n] a Hn; simpl in Hn.
      * injection Hn as <-. rewrite Hother.
        -- rewrite dict_get_set_eq. by rewrite Nat.add_0_r, Hd.
        -- intros a Ha Heq. apply (inj _) in Heq. by subst.
      * rewrite (Hcells Hnodup n a Hn). by replace (j + S n) with (S j + n) by lia.
Qed.

Lemma table_row_Ok (labels : list string) (distances : list (list distance))
    (clf_classes : list string) (i : nat) (fname author : string)
    (di : list distance) :
  labels !! i = Some author ->
  distances !! i = Some di ->
  length di = length clf_classes ->
  di <> [] ->
  exists row k closest,
    table_row labels distances clf_classes i fname = Ok row
    /\ np_argmin di = Ok k
    /\ clf_classes !! k = Some closest
    /\ dict_get row "Texto" = Some (Str fname)
    /\ dict_get row "Autor" = Some (Str author)
    /\ dict_get row "Más cercano" = Some (Str closest)
    /\ (NoDup clf_classes ->
        forall n a, clf_classes !! n = Some a ->
          dict_get row ("Distancia_" +:+ a) = Round5 <$> di !! n).
Proof.
  intros Hlabel Hi Hlen Hne.
  destruct (np_argmin_is_Ok di Hne) as [k Hk].
  destruct (np_argmin_spec di k Hk) as (dk & Hdk & _).
  destruct (lookup_lt_is_Some_2 clf_classes k) as [closest Hclosest].
  { rewrite <- Hlen. by eapply lookup_lt_Some. }
  destruct (fill_distances_Ok distances i di clf_classes
              [("Texto", Str fname); ("Autor", Str author)] 0 Hi)
    as (row & Hrow & Hother & Hcells); [simpl; lia|].
  exists (dict_set "Más cercano" (Str closest) row), k, closest.
  split.
  { unfold table_row, getitem. rewrite Hlabel. simpl. rewrite Hrow. simpl.
    rewrite Hi. simpl. rewrite Hk. simpl. by rewrite Hclosest. }
  split; [done|]. split; [done|].
  split; [|split; [|split]].
  - rewrite dict_get_set_ne by done. by rewrite Hother.
  - rewrite dict_get_set_ne by done. by rewrite Hother.
  - apply dict_get_set_eq.
  - intros Hnodup n a Hn. rewrite dict_get_set_ne by done. by apply Hcells.
Qed.

Lemma table_rows_Ok (labels : list string) (distances : list (list distance))
    (clf_classes filenames : list string) (i : nat) :
  (forall n fname, filenames !! n = Some fname ->
     is_Ok (table_row labels distances clf_classes (i + n) fname)) ->
  exists table,
    table_rows labels distances clf_classes i filenames = Ok table
    /\ length table = length filenames
    /\ forall n fname, filenames !! n = Some fname ->
         exists row, table !! n = Some row
           /\ table_row labels distances clf_classes (i + n) fname = Ok row.
Proof.
  revert i. induction filenames as [|fname rest IH]; intros i Hrows; simpl.
  - exists []. split; [done|]. split; [done|]. intros n f Hn. done.
  - destruct (Hrows 0 fname eq_refl) as [row Hrow]. rewrite Nat.add_0_r in Hrow.
    destruct (IH (S i)) as (table & Htable & Hlen & Hnth).
    { intros n f Hn. replace (S i + n) with (i + S n) by lia. by apply Hrows. }
    exists (row :: table).
    split; [rewrite Hrow; simpl; by rewrite Htable|].
    split; [simpl; by rewrite Hlen|].
    intros [|n] f Hn; simpl in Hn.
    + injection Hn as <-. exists row. by rewrite Nat.add_0_r.
    + destruct (Hnth n f Hn) as (r & Hr & Hrow'). exists r. split; [done|].
      by replace (i + S n) with (S i + n) by lia.
Qed.


Lemma cdist_lookup (XA XB : matrix) (i : nat) :
  cdist XA XB !! i = (fun x => map (euclidean x) XB) <$> XA !! i.
Proof. unfold cdist. apply list_lookup_fmap. Qed.

Lemma predict_Ok (X0 : matrix) (y : list string) (clf : NearestCentroid.t) (X : matrix) :
  NearestCentroid.fit X0 y = Ok clf ->
  exists preds,
    NearestCentroid.predict clf X = Ok preds
    /\ length preds = length X
    /\ forall i x, X !! i = Some x ->
         exists k nearest,
           np_argmin (map (euclidean x) (NearestCentroid.centroids_ clf)) = Ok k
           /\ NearestCentroid.classes_ clf !! k = Some nearest
           /\ preds !! i = Some nearest.
Proof.
  intros Hfit. destruct (fit_centroids_length _ _ _ Hfit) as [Hlen _].
  destruct (fit_Ok _ _ _ Hfit) as (_ & _ & Hcls & _).
  assert (forall x, exists k nearest,
            np_argmin (map (euclidean x) (NearestCentroid.centroids_ clf)) = Ok k
            /\ NearestCentroid.classes_ clf !! k = Some nearest) as Hrow.
  { intros x.
    destruct (np_argmin_is_Ok (map (euclidean x) (NearestCentroid.centroids_ clf)))
      as [k Hk].
    { intros Hnil%(f_equal length). rewrite length_map in Hnil. simpl in Hnil. lia. }
    destruct (np_argmin_spec _ _ Hk) as (dk & Hdk%lookup_lt_Some & _).
    rewrite length_map in Hdk.
    destruct (lookup_lt_is_Some_2 (NearestCentroid.classes_ clf) k) as [c Hc]; [lia|].
    by exists k, c. }
  destruct (mapM_is_Ok
    (fun x => k ← np_argmin (map (euclidean x) (NearestCentroid.centroids_ clf));
              getitem (NearestCentroid.classes_ clf) k) X) as [preds Hpreds].
  { apply Forall_forall. intros x _. destruct (Hrow x) as (k & c & Hk & Hc).
    exists c. rewrite Hk. simpl. by apply getitem_Ok. }
  exists preds. split; [done|]. apply mapM_Ok in Hpreds.
  split; [symmetry; by eapply Forall2_length|].
  intros i x Hx. destruct (Forall2_lookup_l _ _ _ _ _ Hpreds Hx) as (c & Hc & Hfx).
  destruct (Hrow x) as (k & c' & Hk & Hc'). exists k, c'.
  rewrite Hk in Hfx. simpl in Hfx. apply getitem_Ok in Hfx. by simplify_eq.
Qed.

Lemma distance_matrix_Ok (m : trained) :
  NearestCentroid.fit (t_X_reduced m) (t_labels m) = Ok (t_clf m) ->
  length (t_filenames m) = length (t_labels m) ->
  exists table,
    distance_matrix m = Ok table
    /\ length table = length (t_filenames m)
    /\ forall i x, t_X_reduced m !! i = Some x ->
         exists row fname author k nearest,
           table !! i = Some row
           /\ t_filenames m !! i = Some fname
           /\ t_labels m !! i = Some author
           /\ np_argmin (map (euclidean x) (NearestCentroid.centroids_ (t_clf m))) = Ok k
           /\ NearestCentroid.classes_ (t_clf m) !! k = Some nearest
           /\ dict_get row "Texto" = Some (Str fname)
           /\ dict_get row "Autor" = Some (Str author)
           /\ dict_get row "Más cercano" = Some (Str nearest)
           /\ forall j a, NearestCentroid.classes_ (t_clf m) !! j = Some a ->
                dict_get row ("Distancia_" +:+ a)
                = Round5 <$> map (euclidean x) (NearestCentroid.centroids_ (t_clf m)) !! j.
Proof.
  intros Hfit Hnames. destruct (fit_centroids_length _ _ _ Hfit) as [Hlen _].
  destruct (fit_Ok _ _ _ Hfit) as (HX & _ & Hcls & Hunique & _).
  assert (NoDup (NearestCentroid.classes_ (t_clf m))) as Hnodup
    by (rewrite Hunique; apply np_unique_NoDup).
  set (distances := cdist (t_X_reduced m) (NearestCentroid.centroids_ (t_clf m))).
  assert (forall i x, t_X_reduced m !! i = Some x ->
    exists fname author,
      t_filenames m !! i = Some fname /\ t_labels m !! i = Some author
      /\ distances !! i = Some (map (euclidean x) (NearestCentroid.centroids_ (t_clf m))))
    as Hat.
  { intros i x Hx. apply lookup_lt_Some in Hx as Hi.
    destruct (lookup_lt_is_Some_2 (t_filenames m) i) as [fname Hf]; [lia|].
    destruct (lookup_lt_is_Some_2 (t_labels m) i) as [author Ha]; [lia|].
    exists fname, author. split; [done|]. split; [done|].
    unfold distances. by rewrite cdist_lookup, Hx. }
  assert (forall i x fname author,
    t_X_reduced m !! i = Some x -> t_labels m !! i = Some author ->
    exists row k nearest,
      table_row (t_labels m) distances (NearestCentroid.classes_ (t_clf m)) i fname = Ok row
      /\ np_argmin (map (euclidean x) (NearestCentroid.centroids_ (t_clf m))) = Ok k
      /\ NearestCentroid.classes_ (t_clf m) !! k = Some nearest
      /\ dict_get row "Texto" = Some (Str fname)
      /\ dict_get row "Autor" = Some (Str author)
      /\ dict_get row "Más cercano" = Some (Str nearest)
      /\ forall j a, NearestCentroid.classes_ (t_clf m) !! j = Some a ->
           dict_get row ("Distancia_" +:+ a)
           = Round5 <$> map (euclidean x) (NearestCentroid.centroids_ (t_clf m)) !! j)
    as Hrow.
  { intros i x fname author Hx Ha. destruct (Hat i x Hx) as (_ & _ & _ & _ & Hd).
    destruct (table_row_Ok (t_labels m) distances (NearestCentroid.classes_ (t_clf m))
                i fname author _ Ha Hd) as (row & k & nearest & H).
    - by rewrite length_map.
    - intros Hnil%(f_equal length). rewrite length_map in Hnil. simpl in Hnil. lia.
    - exists row, k, nearest. destruct H as (? & ? & ? & ? & ? & ? & Hcells).
      repeat (split; [done|]). by apply Hcells. }
  destruct (table_rows_Ok (t_labels m) distances (NearestCentroid.classes_ (t_clf m))
              (t_filenames m) 0) as (table & Htable & Htlen & Hnth).
  { intros n fname Hn. apply lookup_lt_Some in Hn as Hlt.
    destruct (lookup_lt_is_Some_2 (t_X_reduced m) n) as [x Hx]; [lia|].
    destruct (Hat n x Hx) as (_ & author & _ & Ha & _).
    destruct (Hrow n x fname author Hx Ha) as (row & _ & _ & Hr & _). by exists row. }
  exists table. split; [done|]. split; [done|].
  intros i x Hx. destruct (Hat i x Hx) as (fname & author & Hf & Ha & _).
  destruct (Hnth i fname Hf) as (row & Hi & Hr).
  destruct (Hrow i x fname author Hx Ha) as (row' & k & nearest & Hr' & H).
  simpl in Hr. rewrite Hr in Hr'. injection Hr' as <-.
  by exists row, fname, author, k, nearest.
Qed.

Section TableFacts.

Variable tfidf_weights : TfidfVectorizer -> list string -> result matrix.
Variable svd_solver : TruncatedSVD -> matrix -> result matrix.

Local Abbreviation pipeline := (load_and_train_model tfidf_weights svd_solver).

Lemma trained_fit (listing : directory) (lo hi : Z) (m : trained) :
  pipeline listing lo hi = Ok m ->
  NearestCentroid.fit (t_X_reduced m) (t_labels m) = Ok (t_clf m)
  /\ length (t_filenames m) = length (t_labels m).
Proof.
  intros (c & X & Hc & _ & _ & Hfit & _ & _ & _ & -> & ->)%load_and_train_model_Ok.
  split; [done|]. apply read_corpus_lengths in Hc. lia.
Qed.

(** C2, as amended: for a trained model the table of distances exists
    and has one row per row of the reduced matrix; in every row the label
    under [Más cercano] is the class at the first position that minimises
    the Euclidean distances of that row to the centroids, and those
    distances are the ones the row stores.  The label comes from the
    distances of the table, not from the prediction of the classifier. *)
Theorem nearest_is_argmin (listing : directory) (lo hi : Z) (m : trained) :
  pipeline listing lo hi = Ok m ->
  exists table,
    distance_matrix m = Ok table
    /\ length table = length (t_X_reduced m)
    /\ forall i x, t_X_reduced m !! i = Some x ->
         exists row k nearest,
           table !! i = Some row
           /\ Spec.is_argmin k (map (euclidean x) (NearestCentroid.centroids_ (t_clf m)))
           /\ NearestCentroid.classes_ (t_clf m) !! k = Some nearest
           /\ dict_get row "Más cercano" = Some (Str nearest)
           /\ forall j a, NearestCentroid.classes_ (t_clf m) !! j = Some a ->
                dict_get row ("Distancia_" +:+ a)
                = Round5 <$> map (euclidean x) (NearestCentroid.centroids_ (t_clf m)) !! j.
Proof.
  intros Hm. destruct (trained_fit _ _ _ _ Hm) as [Hfit Hnames].
  destruct (distance_matrix_Ok m Hfit Hnames) as (table & Htable & Htlen & Hrows).
  exists table. split; [done|].
  split; [apply fit_Ok in Hfit; lia|].
  intros i x Hx.
  destruct (Hrows i x Hx) as (row & _ & _ & k & nearest & Hrow & _ & _ & Hk & Hc & _ & _ & Hn & Hd).
  exists row, k, nearest. split; [done|]. split; [by apply np_argmin_spec|]. done.
Qed.

(** C5: with a vectorizer that returns one row per text, every stage of a
    successful run has one row per document of the loader, in load order:
    the loaded texts, the sparse matrix, the reduced matrix and the table
    of distances; row [i] of the table carries the display name and the
    label of the [i]-th document. *)
Theorem rows_follow_documents (listing : directory) (lo hi : Z) (m : trained) :
  (forall v docs X, tfidf_weights v docs = Ok X -> length X = length docs) ->
  pipeline listing lo hi = Ok m ->
  (exists c X,
     read_corpus listing = Ok c
     /\ TfidfVectorizer_fit_transform tfidf_weights (t_vectorizer m) (texts c) = Ok X
     /\ TruncatedSVD_fit_transform svd_solver (t_svd m) X = Ok (t_X_reduced m)
     /\ length (texts c) = length (txt_entries listing)
     /\ length X = length (txt_entries listing))
  /\ length (t_X_reduced m) = length (txt_entries listing)
  /\ exists table,
       distance_matrix m = Ok table
       /\ length table = length (txt_entries listing)
       /\ forall i e, txt_entries listing !! i = Some e ->
            t_filenames m !! i = Some (display_name (d_name e))
            /\ t_labels m !! i = Some (author_of (d_name e))
            /\ exists row,
                 table !! i = Some row
                 /\ dict_get row "Texto" = Some (Str (display_name (d_name e)))
                 /\ dict_get row "Autor" = Some (Str (author_of (d_name e))).
Proof.
  intros Hrows Hm. destruct (trained_fit _ _ _ _ Hm) as [Hfit Hnames].
  destruct (trained_aligned _ _ _ _ _ _ Hm) as (HXlen & Hlabels & Hfilenames).
  split; [|split; [done|]].
  - destruct (load_and_train_model_Ok _ _ _ _ _ _ Hm)
      as (c & X & Hc & HX & Hsvd & _ & -> & -> & _).
    exists c, X. split; [done|]. split; [done|]. split; [done|].
    destruct (read_corpus_lengths _ _ Hc) as (Htexts & _).
    split; [done|]. rewrite <- Htexts.
    apply tfidf_fit_transform_Ok in HX as [_ HX]. by eapply Hrows.
  - destruct (distance_matrix_Ok m Hfit Hnames) as (table & Htable & Htlen & Hat).
    exists table. split; [done|].
    split; [by rewrite Htlen, Hfilenames, length_fmap|].
    intros i e He.
    assert (t_filenames m !! i = Some (display_name (d_name e))) as Hf
      by by rewrite Hfilenames, list_lookup_fmap, He.
    assert (t_labels m !! i = Some (author_of (d_name e))) as Ha
      by by rewrite Hlabels, list_lookup_fmap, He.
    split; [done|]. split; [done|].
    destruct (lookup_lt_is_Some_2 (t_X_reduced m) i) as [x Hx].
    { rewrite HXlen. by eapply lookup_lt_Some. }
    destruct (Hat i x Hx) as (row & fname & author & _ & _ & Hrow & Hf' & Ha' & _ & _ & Ht & Hau & _).
    exists row. split; [done|]. by simplify_eq.
Qed.

End TableFacts.

Lemma standin_tfidf_rows (v : TfidfVectorizer) (docs : list string) (X : matrix) :
  Standin.tfidf v docs = Ok X -> length X = length docs.
Proof.
  unfold Standin.tfidf. destruct (ngram_range v) as [lo hi].
  case_bool_decide; [done|]. intros [= <-]. by rewrite length_map.
Qed.

Lemma nearest_is_argmin_witness :
  exists m table,
    load_and_train_model Standin.tfidf Standin.svd Sample.latin 2 4 = Ok m
    /\ distance_matrix m = Ok table
    /\ length table = length (t_X_reduced m).
Proof.
  destruct (load_and_train_model Standin.tfidf Standin.svd Sample.latin 2 4)
    as [m|] eqn:Hm; [|vm_compute in Hm; discriminate].
  destruct (nearest_is_argmin _ _ _ _ _ _ Hm) as (table & Htable & Htlen & _).
  exists m, table.
  split; [reflexivity|]. split; [exact Htable|exact Htlen].
Defined.

(** In binary64 the label of the table and the prediction differ on the
    second of the three documents of [NearTie].  With [u = 2^-29], the row
    is at [2 u] from the centroid of the other author and at [u] from the
    centroid of its own, as [cdist] finds, and the table names its own
    author.  The products of the expanded square are rounded to multiples
    of [16 u^2]: the square cancels to [0] for the farther centroid and to
    [16 u^2] for the nearer, and the prediction names the other author. *)
Lemma prediction_differs_from_nearest :
  let classes := np_unique NearTie.labels in
  let centroids := Float64.centroids NearTie.X_reduced NearTie.labels classes in
  let u := PrimFloat.div (Float64.of_Z 1) (Float64.of_Z 536870912) in
  classes = ["Caesar"; "Cicero"]
  /\ centroids = [NearTie.row 300000016; NearTie.row 300000019]
  /\ Float64.cdist NearTie.X_reduced centroids !! 1
     = Some [PrimFloat.mul (Float64.of_Z 2) u; u]
  /\ map (Float64.sqeuclidean (NearTie.row 300000018)) centroids
     = [Float64.of_Z 0; PrimFloat.mul (Float64.of_Z 16) (PrimFloat.mul u u)]
  /\ Float64.closest_authors classes centroids NearTie.X_reduced
     = Ok ["Caesar"; "Cicero"; "Cicero"]
  /\ Float64.y_pred classes centroids NearTie.X_reduced
     = Ok ["Caesar"; "Caesar"; "Cicero"].
Proof. vm_compute. repeat (split; [reflexivity|]). reflexivity. Qed.

Lemma rows_follow_documents_witness :
  exists m table,
    load_and_train_model Standin.tfidf Standin.svd Sample.latin 2 4 = Ok m
    /\ distance_matrix m = Ok table
    /\ length table = length (txt_entries Sample.latin).
Proof.
  destruct (load_and_train_model Standin.tfidf Standin.svd Sample.latin 2 4)
    as [m|] eqn:Hm; [|vm_compute in Hm; discriminate].
  destruct (rows_follow_documents _ _ _ _ _ _ standin_tfidf_rows Hm)
    as (_ & _ & table & Htable & Htlen & _).
  exists m, table.
  split; [reflexivity|]. split; [exact Htable|exact Htlen].
Defined.

(** ** Sums over lists *)

Lemma sum_list_with_ext_in {A} (f g : A -> nat) (l : list A) :
  (forall x, x ∈ l -> f x = g x) -> sum_list_with f l = sum_list_with g l.
Proof.
  induction l as [|x l IH]; intros Hfg; simpl; [done|].
  rewrite (Hfg x) by left. rewrite IH; [done|]. intros y Hy. apply Hfg. by right.
Qed.

Lemma sum_list_with_concat_map {A B} (h : B -> nat) (f : A -> list B) (l : list A) :
  sum_list_with h (concat (map f l)) = sum_list_with (fun x => sum_list_with h (f x)) l.
Proof.
  induction l as [|x l IH]; simpl; [done|]. by rewrite sum_list_with_app, IH.
Qed.

Lemma length_filter_concat_map {A B} (P : B -> Prop) `{forall b, Decision (P b)}
    (f : A -> list B) (l : list A) :
  length (filter P (concat (map f l)))
  = sum_list_with (fun x => length (filter P (f x))) l.
Proof.
  induction l as [|x l IH]; simpl; [done|].
  by rewrite filter_app, length_app, IH.
Qed.

Lemma sum_list_with_single (g : nat -> nat) (i start n : nat) :
  sum_list_with (fun x => if decide (x = i) then g x else 0) (seq start n)
  = if decide (start <= i < start + n) then g i else 0.
Proof.
  revert start. induction n as [|n IH]; intros start; simpl.
  - case_decide; [lia|done].
  - rewrite IH. repeat case_decide; subst; try lia.
Qed.

Lemma sum_list_with_zero {A} (l : list A) : sum_list_with (fun _ => 0) l = 0.
Proof. induction l; simpl; lia. Qed.

Lemma filter_at_most_one {A} (P : A -> Prop) `{forall a, Decision (P a)}
    (l : list A) (a b : nat) (x y : A) :
  length (filter P l) <= 1 ->
  l !! a = Some x -> l !! b = Some y -> P x -> P y -> a = b.
Proof.
  revert a b. induction l as [|z l IH]; intros a b Hlen Ha Hb Hx Hy; [done|].
  rewrite filter_cons in Hlen.
  assert (forall c w, l !! c = Some w -> P w -> 1 <= length (filter P l)) as Hin.
  { intros c w Hc Hw. assert (w ∈ filter P l) as Hmem.
    { apply list_elem_of_filter. split; [done|]. by eapply list_elem_of_lookup_2. }
    destruct (filter P l); [by apply not_elem_of_nil in Hmem|simpl; lia]. }
  destruct a as [|a], b as [|b]; simpl in *; [done|..].
  - simplify_eq. rewrite decide_True in Hlen by done. simpl in Hlen.
    specialize (Hin b y Hb Hy). lia.
  - simplify_eq. rewrite decide_True in Hlen by done. simpl in Hlen.
    specialize (Hin a x Ha Hx). lia.
  - f_equal. apply IH; [|done..]. case_decide; simpl in Hlen; lia.
Qed.

(** ** The confusion matrix *)

Lemma label_to_ind_Some (labels : list string) (x : string) (i : nat) :
  label_to_ind labels x = Some i -> labels !! i = Some x.
Proof.
  revert i. induction labels as [|y rest IH]; intros i; simpl; [done|].
  destruct (label_to_ind rest x) as [i'|].
  - intros [= <-]. by apply IH.
  - case_decide; [|done]. intros [= <-]. by subst.
Qed.

Lemma label_to_ind_NoDup (labels : list string) (x : string) (i : nat) :
  NoDup labels -> label_to_ind labels x = Some i <-> labels !! i = Some x.
Proof.
  intros Hnodup. split; [apply label_to_ind_Some|].
  revert i. induction Hnodup as [|y rest Hfresh Hnodup IH]; intros i Hi; [done|].
  simpl. destruct i as [|i]; simpl in Hi.
  - injection Hi as ->. destruct (label_to_ind rest x) as [i'|] eqn:Hrest.
    + apply label_to_ind_Some in Hrest. destruct Hfresh. by eapply list_elem_of_lookup_2.
    + by rewrite decide_True.
  - by rewrite (IH i Hi).
Qed.

Lemma cm_count_NoDup (classes labels y_pred : list string) (i j : nat) (ci cj : string) :
  NoDup classes -> classes !! i = Some ci -> classes !! j = Some cj ->
  cm_count classes labels y_pred i j
  = length (filter (fun p => p.1 = ci /\ p.2 = cj) (zip labels y_pred)).
Proof.
  intros Hnodup Hi Hj. unfold cm_count. f_equal. apply list_filter_iff.
  intros [l p]. simpl. rewrite !label_to_ind_NoDup by done.
  split.
  - intros [Hl Hp]. split; congruence.
  - by intros [-> ->].
Qed.


Lemma confusion_matrix_Ok (labels y_pred classes : list string) :
  length y_pred = length labels ->
  NoDup classes -> classes <> [] ->
  (labels = [] \/ exists l, l ∈ labels /\ l ∈ classes) ->
  exists cm,
    confusion_matrix labels y_pred classes = Ok cm
    /\ length cm = length classes
    /\ forall i j, i < length classes -> j < length classes ->
         exists row, cm !! i = Some row
           /\ row !! j = Some (cm_count classes labels y_pred i j).
Proof.
  intros Hlen Hnodup Hcls Hoverlap. unfold confusion_matrix.
  rewrite Hlen, Nat.eqb_refl. simpl.
  destruct (Nat.eqb_spec (length classes) 0) as [Hz|_];
    [by destruct classes|].
  case_bool_decide as Hnil.
  - subst. destruct y_pred; [|done]. eexists. split; [done|].
    split; [by rewrite length_replicate|]. intros i j Hi Hj.
    exists (replicate (length classes) 0). by rewrite !lookup_replicate_2.
  - destruct Hoverlap as [->|(l & Hl & Hc)]; [done|].
    assert (existsb (fun l => bool_decide (l ∈ classes)) labels = true) as ->.
    { apply existsb_exists. exists l. split; [by apply list_elem_of_In|].
      by apply bool_decide_eq_true. }
    simpl. eexists. split; [done|]. split; [by rewrite length_map, length_seq|].
    intros i j Hi Hj. eexists. rewrite list_lookup_fmap, lookup_seq_lt by done.
    split; [done|]. by rewrite list_lookup_fmap, lookup_seq_lt.
Qed.

(** ** The comprehension of misclassified files *)

Lemma misclassified_Ok (ci cj : string) (all_pred all_names : list string)
    (labels : list string) (idx : nat) :
  length (drop idx all_pred) = length labels ->
  length (drop idx all_names) = length labels ->
  misclassified ci cj all_pred all_names idx labels
  = Ok (files_of ci cj labels (drop idx all_pred) (drop idx all_names)).
Proof.
  revert idx. induction labels as [|label rest IH]; intros idx Hp Hn; simpl.
  - done.
  - destruct (drop idx all_pred) as [|p preds] eqn:Hdp; [done|].
    destruct (drop idx all_names) as [|f names] eqn:Hdn; [done|].
    assert (all_pred !! idx = Some p) as Hip.
    { rewrite <- (Nat.add_0_r idx), <- lookup_drop. by rewrite Hdp. }
    assert (all_names !! idx = Some f) as Hif.
    { rewrite <- (Nat.add_0_r idx), <- lookup_drop. by rewrite Hdn. }
    rewrite (drop_S _ _ _ Hip) in Hdp. injection Hdp as Hdp.
    rewrite (drop_S _ _ _ Hif) in Hdn. injection Hdn as Hdn.
    simpl in Hp, Hn. rewrite IH by (rewrite ?Hdp, ?Hdn; lia).
    rewrite Hdp, Hdn. unfold files_of. simpl. rewrite filter_cons. simpl.
    apply getitem_Ok in Hip, Hif.
    case_bool_decide as Hl; [rewrite Hip; simpl; case_bool_decide as Hc|].
    + rewrite Hif. simpl. by rewrite decide_True.
    + rewrite decide_False; [done|]. by intros [_ ?].
    + rewrite decide_False; [done|]. by intros [? _].
Qed.

Lemma files_of_length (ci cj : string) (labels y_pred filenames : list string) :
  length y_pred = length labels -> length filenames = length labels ->
  length (files_of ci cj labels y_pred filenames)
  = length (filter (fun p => p.1 = ci /\ p.2 = cj) (zip labels y_pred)).
Proof.
  unfold files_of. rewrite length_fmap. revert y_pred filenames.
  induction labels as [|l labels IH]; intros [|p y_pred] [|f filenames] Hp Hf;
    simpl in *; try done.
  rewrite !filter_cons. simpl. case_decide; simpl; rewrite IH by lia; done.
Qed.

Lemma elem_of_files_of (ci cj f : string) (labels y_pred filenames : list string) :
  f ∈ files_of ci cj labels y_pred filenames
  <-> exists idx, filenames !! idx = Some f
                  /\ labels !! idx = Some ci /\ y_pred !! idx = Some cj.
Proof.
  unfold files_of. rewrite list_elem_of_fmap. split.
  - intros ([[l p] f'] & -> & [[Hl Hp] Hin]%list_elem_of_filter). simpl in *. subst.
    apply elem_of_lookup_zip_with in Hin as (idx & [l p] & f & [= <- <- <-] & Hlp & Hf).
    apply lookup_zip_with_Some in Hlp as (l' & p' & [= <- <-] & Hl & Hp).
    by exists idx.
  - intros (idx & Hf & Hl & Hp). exists (ci, cj, f). split; [done|].
    apply list_elem_of_filter. split; [done|].
    apply elem_of_lookup_zip_with. exists idx, (ci, cj), f. split; [done|].
    split; [|done]. apply lookup_zip_with_Some. by exists ci, cj.
Qed.

Lemma elem_of_concat {A} (ls : list (list A)) (x : A) :
  x ∈ concat ls <-> exists l, x ∈ l /\ l ∈ ls.
Proof.
  rewrite list_elem_of_In, in_concat. split.
  - intros (l & Hl & Hx). exists l. by rewrite !list_elem_of_In.
  - intros (l & Hx & Hl). exists l. by rewrite <- !list_elem_of_In.
Qed.

Section Evaluator.

Variables labels y_pred filenames : list string.
Variable clf : NearestCentroid.t.

Local Abbreviation classes := (NearestCentroid.classes_ clf).

Hypothesis pred_aligned : length y_pred = length labels.
Hypothesis names_aligned : length filenames = length labels.
Hypothesis classes_NoDup : NoDup classes.

Lemma confusion_cell_Ok (cm : list (list nat)) (i j : nat) :
  (forall i j, i < length classes -> j < length classes ->
     exists row, cm !! i = Some row
       /\ row !! j = Some (cm_count classes labels y_pred i j)) ->
  i < length classes -> j < length classes ->
  confusion_cell labels y_pred filenames classes cm i j
  = Ok (cell_records labels y_pred filenames classes i j).
Proof using All.
  intros Hcm Hi Hj. unfold confusion_cell, cell_records.
  destruct (lookup_lt_is_Some_2 classes i Hi) as [ci Hci].
  destruct (lookup_lt_is_Some_2 classes j Hj) as [cj Hcj].
  rewrite Hci, Hcj.
  destruct (Hcm i j Hi Hj) as (row & Hrow%getitem_Ok & Hcount%getitem_Ok).
  apply getitem_Ok in Hci, Hcj.
  destruct (Nat.eqb_spec i j) as [->|Hij]; simpl.
  - rewrite decide_False; [done|]. by intros [? _].
  - rewrite Hrow. simpl. rewrite Hcount. simpl.
    destruct (Nat.ltb_spec 0 (cm_count classes labels y_pred i j)) as [Hpos|Hzero].
    + rewrite Hci. simpl. rewrite Hcj. simpl.
      rewrite (misclassified_Ok ci cj y_pred filenames labels 0)
        by (rewrite drop_0; done).
      simpl. rewrite !drop_0. by rewrite decide_True.
    + rewrite decide_False; [done|]. intros [_ ?]. lia.
Qed.

Lemma identify_confusion_errors_Ok :
  classes <> [] ->
  (labels = [] \/ exists l, l ∈ labels /\ l ∈ classes) ->
  exists cm,
    confusion_matrix labels y_pred classes = Ok cm
    /\ length cm = length classes
    /\ (forall i j, i < length classes -> j < length classes ->
          Spec.cell cm i j = cm_count classes labels y_pred i j)
    /\ identify_confusion_errors labels y_pred filenames clf
       = Ok (all_records labels y_pred filenames classes).
Proof using All.
  intros Hne Hoverlap.
  destruct (confusion_matrix_Ok labels y_pred classes pred_aligned classes_NoDup
              Hne Hoverlap) as (cm & Hcm & Hlen & Hcells).
  exists cm. split; [done|]. split; [done|]. split.
  - intros i j Hi Hj. destruct (Hcells i j Hi Hj) as (row & Hrow & Hcount).
    unfold Spec.cell. by rewrite Hrow, Hcount.
  - unfold identify_confusion_errors. rewrite Hcm. simpl.
    rewrite (mapM_Ok_map _
      (fun i => concat (map (cell_records labels y_pred filenames classes i)
                            (seq 0 (length classes))))); [done|].
    intros i Hi%elem_of_seq.
    rewrite (mapM_Ok_map _ (cell_records labels y_pred filenames classes i)); [done|].
    intros j Hj%elem_of_seq. apply confusion_cell_Ok; [done|lia..].
Qed.

Lemma cell_records_count (i j i' j' : nat) (ci cj : string) :
  classes !! i = Some ci -> classes !! j = Some cj ->
  length (filter (fun r => true_label r = ci /\ predicted_label r = cj)
                 (cell_records labels y_pred filenames classes i' j'))
  = if decide (i' = i)
    then if decide (j' = j)
         then if decide (i <> j /\ 0 < cm_count classes labels y_pred i j) then 1 else 0
         else 0
    else 0.
Proof using All.
  intros Hi Hj. unfold cell_records.
  destruct (classes !! i') as [ci'|] eqn:Hi'; [|by repeat case_decide; simplify_eq].
  destruct (classes !! j') as [cj'|] eqn:Hj'; [|by repeat case_decide; simplify_eq].
  destruct (decide (i' <> j' /\ _)) as [Hcond|Hcond].
  - rewrite filter_cons, filter_nil. simpl.
    destruct (decide (i' = i)) as [->|Hne].
    + destruct (decide (j' = j)) as [->|Hne'].
      * simplify_eq. rewrite decide_True by done. by rewrite decide_True.
      * rewrite decide_False; [done|]. intros [_ <-]. apply Hne'.
        by eapply NoDup_lookup.
    + rewrite decide_False; [done|]. intros [<- _]. apply Hne.
      by eapply NoDup_lookup.
  - rewrite filter_nil. simpl. repeat case_decide; simplify_eq; try done.
Qed.

Lemma all_records_count (i j : nat) (ci cj : string) :
  classes !! i = Some ci -> classes !! j = Some cj ->
  length (filter (fun r => true_label r = ci /\ predicted_label r = cj)
                 (all_records labels y_pred filenames classes))
  = if decide (i <> j /\ 0 < cm_count classes labels y_pred i j) then 1 else 0.
Proof using All.
  intros Hi Hj. unfold all_records. rewrite length_filter_concat_map.
  erewrite sum_list_with_ext_in.
  2:{ intros i' _. rewrite length_filter_concat_map.
      erewrite sum_list_with_ext_in.
      2:{ intros j' _. by rewrite (cell_records_count i j i' j' ci cj). }
      reflexivity. }
  simpl.
  erewrite (sum_list_with_ext_in _
    (fun i' => if decide (i' = i)
               then (fun _ => if decide (i <> j /\ 0 < cm_count classes labels y_pred i j)
                              then 1 else 0) i'
               else 0)).
  - rewrite sum_list_with_single. apply lookup_lt_Some in Hi. by rewrite decide_True by lia.
  - intros i' _. destruct (decide (i' = i)) as [->|]; [|apply sum_list_with_zero].
    rewrite (sum_list_with_single (fun _ => _) j).
    apply lookup_lt_Some in Hj. by rewrite decide_True by lia.
Qed.

Lemma all_records_total :
  sum_list_with (fun r => length (misclassified_files r))
                (all_records labels y_pred filenames classes)
  = sum_list_with
      (fun i => sum_list_with
                  (fun j => if decide (i = j) then 0
                            else cm_count classes labels y_pred i j)
                  (seq 0 (length classes)))
      (seq 0 (length classes)).
Proof using All.
  unfold all_records. rewrite sum_list_with_concat_map.
  apply sum_list_with_ext_in. intros i Hi%elem_of_seq.
  rewrite sum_list_with_concat_map.
  apply sum_list_with_ext_in. intros j Hj%elem_of_seq.
  unfold cell_records.
  destruct (lookup_lt_is_Some_2 classes i) as [ci Hci]; [lia|].
  destruct (lookup_lt_is_Some_2 classes j) as [cj Hcj]; [lia|].
  rewrite Hci, Hcj. destruct (decide (i = j)) as [->|Hij].
  - rewrite decide_False; [done|]. by intros [? _].
  - destruct (decide (i <> j /\ _)) as [_|Hzero]; simpl.
    + rewrite files_of_length by done. rewrite Nat.add_0_r.
      symmetry. by apply cm_count_NoDup.
    + assert (cm_count classes labels y_pred i j = 0) as ->; [|done].
      destruct (cm_count classes labels y_pred i j); [done|]. destruct Hzero. split; [done|lia].
Qed.

Lemma elem_of_all_records (r : confusion_record) :
  r ∈ all_records labels y_pred filenames classes ->
  exists i j,
    i <> j
    /\ classes !! i = Some (true_label r)
    /\ classes !! j = Some (predicted_label r)
    /\ misclassified_files r
       = files_of (true_label r) (predicted_label r) labels y_pred filenames.
Proof using All.
  unfold all_records.
  intros (row & Hr & (i & -> & Hi)%list_elem_of_fmap)%elem_of_concat.
  apply elem_of_concat in Hr as (cell & Hr & (j & -> & Hj)%list_elem_of_fmap).
  unfold cell_records in Hr.
  destruct (classes !! i) as [ci|] eqn:Hci; [|by apply not_elem_of_nil in Hr].
  destruct (classes !! j) as [cj|] eqn:Hcj; [|by apply not_elem_of_nil in Hr].
  case_decide as Hcond; [|by apply not_elem_of_nil in Hr].
  apply list_elem_of_singleton in Hr as ->. exists i, j. simpl. by destruct Hcond.
Qed.

End Evaluator.


(** C3: for aligned lists of true labels, predicted labels and display
    names and the duplicate-free vocabulary of a classifier, the evaluator
    returns, for every pair of classes, one record when the cell of the
    confusion matrix is off the diagonal and not zero, and none otherwise;
    a record lists exactly the display names of the documents of its true
    label that were predicted as its predicted label; the lists of two
    different records share no name when the display names are distinct;
    and the lists together count the sum of the off-diagonal cells. *)
Theorem confusion_records_partition (labels y_pred filenames : list string)
    (clf : NearestCentroid.t) :
  length y_pred = length labels ->
  length filenames = length labels ->
  NoDup (NearestCentroid.classes_ clf) ->
  NearestCentroid.classes_ clf <> [] ->
  (labels = [] \/ exists l, l ∈ labels /\ l ∈ NearestCentroid.classes_ clf) ->
  exists cm errors,
    confusion_matrix labels y_pred (NearestCentroid.classes_ clf) = Ok cm
    /\ identify_confusion_errors labels y_pred filenames clf = Ok errors
    /\ (forall i j ci cj,
          NearestCentroid.classes_ clf !! i = Some ci ->
          NearestCentroid.classes_ clf !! j = Some cj ->
          length (filter (fun r => true_label r = ci /\ predicted_label r = cj) errors)
          = if decide (i <> j /\ 0 < Spec.cell cm i j) then 1 else 0)
    /\ (forall r, r ∈ errors ->
          true_label r ∈ NearestCentroid.classes_ clf
          /\ predicted_label r ∈ NearestCentroid.classes_ clf
          /\ true_label r <> predicted_label r
          /\ forall f, f ∈ misclassified_files r <->
               exists idx, filenames !! idx = Some f
                           /\ labels !! idx = Some (true_label r)
                           /\ y_pred !! idx = Some (predicted_label r))
    /\ (NoDup filenames ->
        forall a b r1 r2, a <> b -> errors !! a = Some r1 -> errors !! b = Some r2 ->
          forall f, f ∈ misclassified_files r1 -> f ∉ misclassified_files r2)
    /\ sum_list_with (fun r => length (misclassified_files r)) errors
       = Spec.off_diagonal_total cm.
Proof.
  intros Hpred Hnames Hnodup Hne Hoverlap.
  destruct (identify_confusion_errors_Ok labels y_pred filenames clf Hpred Hnames
              Hnodup Hne Hoverlap) as (cm & Hcm & Hlen & Hcell & Herrors).
  exists cm, (all_records labels y_pred filenames (NearestCentroid.classes_ clf)).
  split; [done|]. split; [done|].
  assert (forall i j ci cj,
    NearestCentroid.classes_ clf !! i = Some ci ->
    NearestCentroid.classes_ clf !! j = Some cj ->
    length (filter (fun r => true_label r = ci /\ predicted_label r = cj)
              (all_records labels y_pred filenames (NearestCentroid.classes_ clf)))
    = if decide (i <> j /\ 0 < Spec.cell cm i j) then 1 else 0) as Hone.
  { intros i j ci cj Hi Hj.
    rewrite (all_records_count labels y_pred filenames clf Hpred Hnames Hnodup i j ci cj Hi Hj).
    rewrite Hcell by by eapply lookup_lt_Some. done. }
  assert (forall r,
    r ∈ all_records labels y_pred filenames (NearestCentroid.classes_ clf) ->
    true_label r ∈ NearestCentroid.classes_ clf
    /\ predicted_label r ∈ NearestCentroid.classes_ clf
    /\ true_label r <> predicted_label r
    /\ forall f, f ∈ misclassified_files r <->
         exists idx, filenames !! idx = Some f
                     /\ labels !! idx = Some (true_label r)
                     /\ y_pred !! idx = Some (predicted_label r)) as Hmem.
  { intros r (i & j & Hij & Hi & Hj & Hfiles)%(elem_of_all_records _ _ _ _ Hpred Hnames Hnodup).
    split; [by eapply list_elem_of_lookup_2|].
    split; [by eapply list_elem_of_lookup_2|].
    split.
    - intros Heq. rewrite Heq in Hi. apply Hij. by eapply NoDup_lookup.
    - intros f. rewrite Hfiles. apply elem_of_files_of. }
  split; [done|]. split; [done|]. split.
  - intros Hfiles a b r1 r2 Hab Ha Hb f Hf1 Hf2.
    destruct (Hmem r1) as (Ht1 & Hp1 & _ & Hin1); [by eapply list_elem_of_lookup_2|].
    destruct (Hmem r2) as (_ & _ & _ & Hin2); [by eapply list_elem_of_lookup_2|].
    apply Hin1 in Hf1 as (idx1 & Hn1 & Hl1 & Hy1).
    apply Hin2 in Hf2 as (idx2 & Hn2 & Hl2 & Hy2).
    assert (idx1 = idx2) as -> by by eapply NoDup_lookup.
    apply list_elem_of_lookup in Ht1 as [i Hi]. apply list_elem_of_lookup in Hp1 as [j Hj].
    apply Hab.
    eapply (filter_at_most_one
              (fun r => true_label r = true_label r1 /\ predicted_label r = predicted_label r1));
      [|exact Ha|exact Hb|done|split; congruence].
    rewrite (Hone i j _ _ Hi Hj). case_decide; lia.
  - rewrite (all_records_total labels y_pred filenames clf Hpred Hnames Hnodup).
    unfold Spec.off_diagonal_total. rewrite Hlen.
    apply sum_list_with_ext_in. intros i Hi%elem_of_seq.
    apply sum_list_with_ext_in. intros j Hj%elem_of_seq.
    case_decide; [done|]. symmetry. apply Hcell; lia.
Qed.

Lemma confusion_records_partition_witness :
  exists cm errors,
    let clf := {| NearestCentroid.classes_ := ["Cicero"; "Seneca"];
                  NearestCentroid.centroids_ := [[0%Q]; [1%Q]] |} in
    confusion_matrix ["Cicero"; "Seneca"; "Cicero"; "Seneca"; "Seneca"]
                     ["Seneca"; "Seneca"; "Cicero"; "Cicero"; "Cicero"]
                     (NearestCentroid.classes_ clf) = Ok cm
    /\ identify_confusion_errors
         ["Cicero"; "Seneca"; "Cicero"; "Seneca"; "Seneca"]
         ["Seneca"; "Seneca"; "Cicero"; "Cicero"; "Cicero"]
         ["DeOfficiis"; "DeIra"; "Brutus"; "Medea"; "Phaedra"] clf = Ok errors
    /\ sum_list_with (fun r => length (misclassified_files r)) errors
       = Spec.off_diagonal_total cm.
Proof.
  destruct (confusion_records_partition
              ["Cicero"; "Seneca"; "Cicero"; "Seneca"; "Seneca"]
              ["Seneca"; "Seneca"; "Cicero"; "Cicero"; "Cicero"]
              ["DeOfficiis"; "DeIra"; "Brutus"; "Medea"; "Phaedra"]
              {| NearestCentroid.classes_ := ["Cicero"; "Seneca"];
                 NearestCentroid.centroids_ := [[0%Q]; [1%Q]] |})
    as (cm & errors & Hcm & Herrors & _ & _ & _ & Htotal).
  - reflexivity.
  - reflexivity.
  - simpl. apply (bool_decide_unpack _). vm_compute. reflexivity.
  - simpl. discriminate.
  - right. exists "Cicero". split; apply (bool_decide_unpack _); vm_compute; reflexivity.
  - exists cm, errors. simpl. split; [exact Hcm|]. split; [exact Herrors|exact Htotal].
Defined.

(** * Further properties *)

(** ** More on the loader *)

Lemma read_corpus_app_Raise (pre post : directory) (e : dirent) (err : exn) :
  Forall (fun e' => is_txt (d_name e') = true -> is_Ok (d_read e')) pre ->
  is_txt (d_name e) = true ->
  d_read e = Raise err ->
  read_corpus (pre ++ e :: post) = Raise err.
Proof.
  intros Hpre Htxt Hread. induction Hpre as [|e' pre He' _ IH]; simpl.
  - by rewrite Htxt, Hread.
  - destruct (is_txt (d_name e')); [|exact IH].
    destruct He' as [text ->]; [done|]. simpl. by rewrite IH.
Qed.

Lemma read_corpus_txt_entries (listing : directory) :
  read_corpus (txt_entries listing) = read_corpus listing.
Proof.
  induction listing as [|e listing IH]; [done|].
  rewrite txt_entries_cons. simpl. destruct (is_txt (d_name e)) eqn:He; [|exact IH].
  simpl. rewrite He. by rewrite IH.
Qed.

Section LoaderErrors.

Variable tfidf_weights : TfidfVectorizer -> list string -> result matrix.
Variable svd_solver : TruncatedSVD -> matrix -> result matrix.

(** X1: the loader reads the entries in the order of the listing and
    stops at the first text that cannot be read: when the texts before it
    were read, the exception of that read is the loader's and the
    pipeline's, whatever follows in the listing and whatever the entries
    that are not texts hold. *)
Theorem first_unreadable_text_aborts (pre post : directory) (e : dirent)
    (err : exn) (lo hi : Z) :
  Forall (fun e' => is_txt (d_name e') = true -> is_Ok (d_read e')) pre ->
  is_txt (d_name e) = true ->
  d_read e = Raise err ->
  read_corpus (pre ++ e :: post) = Raise err
  /\ load_and_train_model tfidf_weights svd_solver (pre ++ e :: post) lo hi = Raise err.
Proof.
  intros Hpre Htxt Hread.
  assert (read_corpus (pre ++ e :: post) = Raise err) as Hload
    by by apply read_corpus_app_Raise.
  split; [done|]. unfold load_and_train_model. by rewrite Hload.
Qed.

(** X2: only the entries whose name ends in [.txt] matter: two listings
    with the same such entries, in the same order, give the same corpus and
    the same result of the pipeline, exceptions included; an entry of
    another name is never opened. *)
Theorem other_entries_are_never_read (listing listing' : directory) (lo hi : Z) :
  txt_entries listing = txt_entries listing' ->
  read_corpus listing = read_corpus listing'
  /\ load_and_train_model tfidf_weights svd_solver listing lo hi
     = load_and_train_model tfidf_weights svd_solver listing' lo hi.
Proof.
  intros Htxt.
  assert (read_corpus listing = read_corpus listing') as Hsame.
  { rewrite <- (read_corpus_txt_entries listing), Htxt.
    apply read_corpus_txt_entries. }
  split; [done|]. unfold load_and_train_model. by rewrite Hsame.
Qed.

End LoaderErrors.

Lemma first_unreadable_text_aborts_witness :
  let unreadable := {| d_name := "Cicero_Catilinam.txt";
                       d_read := Raise UnicodeDecodeError |} in
  let pre := [ Sample.file "Caesar_BelloGallico.txt" "gallia est omnis divisa";
               {| d_name := "notes.md"; d_read := Raise OSError |} ] in
  let post := [ Sample.file "Caesar_BelloCivili.txt" "litteris caesaris" ] in
  read_corpus (pre ++ unreadable :: post) = Raise UnicodeDecodeError
  /\ load_and_train_model Standin.tfidf Standin.svd (pre ++ unreadable :: post) 2 4
     = Raise UnicodeDecodeError.
Proof.
  intros unreadable pre post.
  apply (first_unreadable_text_aborts Standin.tfidf Standin.svd pre post unreadable
           UnicodeDecodeError 2 4).
  - constructor; [intros _; by eexists|].
    constructor; [intros Htxt; vm_compute in Htxt; discriminate|]. constructor.
  - reflexivity.
  - reflexivity.
Defined.

Lemma other_entries_are_never_read_witness :
  let listing' :=
    [ Sample.file "Caesar_BelloGallico.txt" "gallia est omnis divisa in partes tres";
      {| d_name := "figures"; d_read := Raise OSError |};
      Sample.file "Cicero_Catilinam.txt" "quo usque tandem abutere catilina patientia nostra";
      Sample.file "Caesar_BelloCivili.txt" "litteris caesaris consulibus redditis aegre ab his";
      Sample.file "anonymus.txt" "arma virumque cano troiae qui primus ab oris" ] in
  txt_entries Sample.latin = txt_entries listing'
  /\ load_and_train_model Standin.tfidf Standin.svd Sample.latin 2 4
     = load_and_train_model Standin.tfidf Standin.svd listing' 2 4.
Proof.
  intros listing'. split; [reflexivity|].
  apply (other_entries_are_never_read Standin.tfidf Standin.svd Sample.latin listing' 2 4).
  reflexivity.
Defined.

(** ** The file name convention *)

Lemma string_app_assoc (s t u : string) : (s +:+ t) +:+ u = s +:+ (t +:+ u).
Proof.
  induction s as [|c s IH]; [done|]. rewrite !string_app_cons. by rewrite IH.
Qed.

Lemma contains_app (sep : ascii) (s t : string) :
  Str.contains sep (s +:+ t) = Str.contains sep s || Str.contains sep t.
Proof.
  induction s as [|c s IH]; [done|]. rewrite string_app_cons. simpl.
  destruct (Ascii.eqb c sep); [done|]. exact IH.
Qed.

Lemma split_app_sep (sep : ascii) (a rest : string) :
  Str.contains sep a = false ->
  Str.split sep (a +:+ String sep rest) = a :: Str.split sep rest.
Proof.
  induction a as [|c a IH]; simpl.
  - intros _. change ("" +:+ String sep rest) with (String sep rest). simpl.
    by rewrite Ascii.eqb_refl.
  - destruct (Ascii.eqb c sep); [done|].
    intros Ha. by rewrite IH.
Qed.

(** X3: the file name convention round trip: for an author without
    underscore and any title, the file [author_title.txt] is loaded, its
    label is [author] (also when the title has underscores) and its
    display name is [author_title]. *)
Theorem file_name_convention (author title : string) :
  ~ Spec.occurs "_" author ->
  let filename := author +:+ String "_" (title +:+ ".txt") in
  is_txt filename = true
  /\ author_of filename = author
  /\ display_name filename = author +:+ String "_" title.
Proof.
  intros Hauthor filename.
  assert (filename = (author +:+ String "_" title) +:+ ".txt") as Hname.
  { unfold filename. by rewrite string_app_assoc, string_app_cons. }
  assert (Str.contains "_" author = false) as Hfree.
  { apply not_true_is_false. by rewrite contains_spec. }
  split; [|split].
  - apply endswith_spec. by eexists.
  - unfold author_of, filename. rewrite contains_app, split_app_sep by done.
    simpl. by rewrite orb_true_r.
  - rewrite Hname. unfold display_name. change 4 with (String.length ".txt").
    apply drop_last_app.
Qed.

Lemma file_name_convention_witness :
  author_of "Seneca_DeBeneficiis.txt" = "Seneca"
  /\ display_name "Seneca_DeBeneficiis.txt" = "Seneca_DeBeneficiis".
Proof.
  destruct (file_name_convention "Seneca" "DeBeneficiis") as (_ & Ha & Hd).
  - rewrite <- contains_spec. vm_compute. discriminate.
  - split; [exact Ha|exact Hd].
Defined.

(** X4: a text file whose name has no underscore is loaded under the
    label [Desconocido] and displayed under its name without the
    extension; that label is also the one of every file of an author
    called [Desconocido], so the two cannot be told apart. *)
Theorem unlabelled_files_share_the_sentinel (stem title : string) :
  ~ Spec.occurs "_" stem ->
  is_txt (stem +:+ ".txt") = true
  /\ author_of (stem +:+ ".txt") = "Desconocido"
  /\ display_name (stem +:+ ".txt") = stem
  /\ author_of ("Desconocido" +:+ String "_" (title +:+ ".txt"))
     = author_of (stem +:+ ".txt").
Proof.
  intros Hstem.
  assert (Str.contains "_" stem = false) as Hfree.
  { apply not_true_is_false. by rewrite contains_spec. }
  assert (author_of (stem +:+ ".txt") = "Desconocido") as Hauthor.
  { unfold author_of. by rewrite contains_app, Hfree. }
  split; [|split; [|split]].
  - apply endswith_spec. by eexists.
  - done.
  - unfold display_name. change 4 with (String.length ".txt"). apply drop_last_app.
  - rewrite Hauthor. unfold author_of.
    rewrite contains_app, split_app_sep by reflexivity. done.
Qed.

Lemma unlabelled_files_share_the_sentinel_witness :
  author_of "anonymus.txt" = "Desconocido"
  /\ display_name "anonymus.txt" = "anonymus"
  /\ author_of "Desconocido_Carmina.txt" = author_of "anonymus.txt".
Proof.
  destruct (unlabelled_files_share_the_sentinel "anonymus" "Carmina")
    as (_ & Ha & Hd & Hsame).
  - rewrite <- contains_spec. vm_compute. discriminate.
  - split; [exact Ha|]. split; [exact Hd|exact Hsame].
Defined.

(** ** More on the evaluator *)

Lemma cm_count_pos (classes labels y_pred : list string) (i j idx : nat) (l p : string) :
  NoDup classes ->
  classes !! i = Some l -> classes !! j = Some p ->
  labels !! idx = Some l -> y_pred !! idx = Some p ->
  0 < cm_count classes labels y_pred i j.
Proof.
  intros Hnodup Hi Hj Hl Hp. rewrite (cm_count_NoDup _ _ _ _ _ l p) by done.
  assert ((l, p) ∈ filter (fun q : string * string => q.1 = l /\ q.2 = p)
                          (zip labels y_pred)) as Hin.
  { apply list_elem_of_filter. split; [done|].
    apply elem_of_lookup_zip_with. by exists idx, l, p. }
  destruct (filter _ _); [by apply not_elem_of_nil in Hin|simpl; lia].
Qed.

Lemma cm_count_pos_inv (classes labels y_pred : list string) (i j : nat) (l p : string) :
  NoDup classes ->
  classes !! i = Some l -> classes !! j = Some p ->
  0 < cm_count classes labels y_pred i j ->
  exists idx, labels !! idx = Some l /\ y_pred !! idx = Some p.
Proof.
  intros Hnodup Hi Hj. rewrite (cm_count_NoDup _ _ _ _ _ l p) by done.
  destruct (filter _ _) as [|[l' p'] rest] eqn:Hf; simpl; [lia|]. intros _.
  assert ((l', p') ∈ filter (fun q : string * string => q.1 = l /\ q.2 = p)
                            (zip labels y_pred)) as Hin by (rewrite Hf; left).
  apply list_elem_of_filter in Hin as [[Hl Hp] Hin]. simpl in *. subst.
  apply elem_of_lookup_zip_with in Hin as (idx & l' & p' & [= <- <-] & Hl & Hp).
  by exists idx.
Qed.

Section EvaluatorFacts.

Variables labels y_pred filenames : list string.
Variable clf : NearestCentroid.t.

Local Abbreviation classes := (NearestCentroid.classes_ clf).

Hypothesis pred_aligned : length y_pred = length labels.
Hypothesis names_aligned : length filenames = length labels.
Hypothesis classes_NoDup : NoDup classes.

Lemma all_records_complete (idx : nat) (l p f : string) :
  labels !! idx = Some l -> y_pred !! idx = Some p -> filenames !! idx = Some f ->
  l <> p -> l ∈ classes -> p ∈ classes ->
  {| true_label := l; predicted_label := p;
     misclassified_files := files_of l p labels y_pred filenames |}
    ∈ all_records labels y_pred filenames classes.
Proof using All.
  intros Hl Hp Hf Hlp [i Hi]%list_elem_of_lookup [j Hj]%list_elem_of_lookup.
  unfold all_records. apply elem_of_concat. eexists. split.
  2:{ apply list_elem_of_fmap. exists i. split; [done|].
      apply elem_of_seq. apply lookup_lt_Some in Hi. lia. }
  apply elem_of_concat. eexists. split.
  2:{ apply list_elem_of_fmap. exists j. split; [done|].
      apply elem_of_seq. apply lookup_lt_Some in Hj. lia. }
  unfold cell_records. rewrite Hi, Hj. rewrite decide_True; [left|].
  split; [intros ->; congruence|]. by eapply cm_count_pos.
Qed.

Lemma all_records_sound (r : confusion_record) :
  r ∈ all_records labels y_pred filenames classes ->
  exists idx f,
    labels !! idx = Some (true_label r)
    /\ y_pred !! idx = Some (predicted_label r)
    /\ filenames !! idx = Some f
    /\ f ∈ misclassified_files r.
Proof using All.
  unfold all_records.
  intros (row & Hr & (i & -> & Hi)%list_elem_of_fmap)%elem_of_concat.
  apply elem_of_concat in Hr as (cell & Hr & (j & -> & Hj)%list_elem_of_fmap).
  unfold cell_records in Hr.
  destruct (classes !! i) as [ci|] eqn:Hci; [|by apply not_elem_of_nil in Hr].
  destruct (classes !! j) as [cj|] eqn:Hcj; [|by apply not_elem_of_nil in Hr].
  case_decide as Hcond; [|by apply not_elem_of_nil in Hr].
  apply list_elem_of_singleton in Hr as ->. simpl. destruct Hcond as [_ Hpos].
  destruct (cm_count_pos_inv _ _ _ _ _ _ _ classes_NoDup Hci Hcj Hpos)
    as (idx & Hl & Hp).
  destruct (lookup_lt_is_Some_2 filenames idx) as [f Hf].
  { rewrite names_aligned. by eapply lookup_lt_Some. }
  exists idx, f. split; [done|]. split; [done|]. split; [done|].
  apply elem_of_files_of. by exists idx.
Qed.

End EvaluatorFacts.

(** X5: the evaluator loses no error and reports no empty one: every
    document whose predicted label differs from its true label, both in
    the vocabulary of the classifier, is listed by name in a record of that
    pair of labels, and every record lists at least one document. *)
Theorem every_misclassified_document_is_listed (labels y_pred filenames : list string)
    (clf : NearestCentroid.t) :
  length y_pred = length labels ->
  length filenames = length labels ->
  NoDup (NearestCentroid.classes_ clf) ->
  NearestCentroid.classes_ clf <> [] ->
  (labels = [] \/ exists l, l ∈ labels /\ l ∈ NearestCentroid.classes_ clf) ->
  exists errors,
    identify_confusion_errors labels y_pred filenames clf = Ok errors
    /\ (forall idx l p f,
          labels !! idx = Some l -> y_pred !! idx = Some p ->
          filenames !! idx = Some f ->
          l <> p ->
          l ∈ NearestCentroid.classes_ clf -> p ∈ NearestCentroid.classes_ clf ->
          exists r, r ∈ errors /\ true_label r = l /\ predicted_label r = p
                    /\ f ∈ misclassified_files r)
    /\ (forall r, r ∈ errors -> misclassified_files r <> []).
Proof.
  intros Hpred Hnames Hnodup Hne Hoverlap.
  destruct (identify_confusion_errors_Ok labels y_pred filenames clf Hpred Hnames
              Hnodup Hne Hoverlap) as (cm & _ & _ & _ & Herrors).
  eexists. split; [exact Herrors|]. split.
  - intros idx l p f Hl Hp Hf Hlp Hlc Hpc. eexists. split.
    + by eapply (all_records_complete labels y_pred filenames clf Hpred Hnames Hnodup idx l p f).
    + simpl. split; [done|]. split; [done|]. apply elem_of_files_of. by exists idx.
  - intros r Hr.
    destruct (all_records_sound labels y_pred filenames clf Hpred Hnames Hnodup r Hr)
      as (idx & f & _ & _ & _ & Hf).
    intros Hnil. rewrite Hnil in Hf. by apply not_elem_of_nil in Hf.
Qed.

(** X6: the evaluator returns no record exactly when every document
    whose two labels are in the vocabulary was predicted as its true
    label. *)
Theorem no_records_iff_no_misclassification (labels y_pred filenames : list string)
    (clf : NearestCentroid.t) :
  length y_pred = length labels ->
  length filenames = length labels ->
  NoDup (NearestCentroid.classes_ clf) ->
  NearestCentroid.classes_ clf <> [] ->
  (labels = [] \/ exists l, l ∈ labels /\ l ∈ NearestCentroid.classes_ clf) ->
  exists errors,
    identify_confusion_errors labels y_pred filenames clf = Ok errors
    /\ (errors = [] <->
        forall idx l p,
          labels !! idx = Some l -> y_pred !! idx = Some p ->
          l ∈ NearestCentroid.classes_ clf -> p ∈ NearestCentroid.classes_ clf ->
          l = p).
Proof.
  intros Hpred Hnames Hnodup Hne Hoverlap.
  destruct (identify_confusion_errors_Ok labels y_pred filenames clf Hpred Hnames
              Hnodup Hne Hoverlap) as (cm & _ & _ & _ & Herrors).
  eexists. split; [exact Herrors|]. split.
  - intros Hnil idx l p Hl Hp Hlc Hpc.
    destruct (decide (l = p)) as [|Hlp]; [done|].
    destruct (lookup_lt_is_Some_2 filenames idx) as [f Hf].
    { rewrite Hnames. by eapply lookup_lt_Some. }
    pose proof (all_records_complete labels y_pred filenames clf Hpred Hnames Hnodup
                  idx l p f Hl Hp Hf Hlp Hlc Hpc) as Hin.
    rewrite Hnil in Hin. by apply not_elem_of_nil in Hin.
  - intros Hall.
    destruct (all_records labels y_pred filenames (NearestCentroid.classes_ clf))
      as [|r rest] eqn:Hrec; [done|].
    assert (r ∈ all_records labels y_pred filenames (NearestCentroid.classes_ clf)) as Hr
      by (rewrite Hrec; left).
    destruct (elem_of_all_records labels y_pred filenames clf Hpred Hnames Hnodup r Hr)
      as (i & j & Hij & Hi & Hj & _).
    destruct (all_records_sound labels y_pred filenames clf Hpred Hnames Hnodup r Hr)
      as (idx & f & Hl & Hp & _).
    exfalso. apply Hij. eapply NoDup_lookup; [exact Hnodup|exact Hi|].
    rewrite (Hall idx _ _ Hl Hp); [done|..]; by eapply list_elem_of_lookup_2.
Qed.

Lemma every_misclassified_document_is_listed_witness :
  let clf := {| NearestCentroid.classes_ := ["Cicero"; "Seneca"];
                NearestCentroid.centroids_ := [[0%Q]; [1%Q]] |} in
  exists errors,
    identify_confusion_errors
      ["Cicero"; "Seneca"; "Cicero"; "Seneca"; "Seneca"]
      ["Seneca"; "Seneca"; "Cicero"; "Cicero"; "Cicero"]
      ["DeOfficiis"; "DeIra"; "Brutus"; "Medea"; "Phaedra"] clf = Ok errors
    /\ exists r, r ∈ errors /\ true_label r = "Cicero" /\ predicted_label r = "Seneca"
                 /\ "DeOfficiis" ∈ misclassified_files r.
Proof.
  intros clf.
  destruct (every_misclassified_document_is_listed
              ["Cicero"; "Seneca"; "Cicero"; "Seneca"; "Seneca"]
              ["Seneca"; "Seneca"; "Cicero"; "Cicero"; "Cicero"]
              ["DeOfficiis"; "DeIra"; "Brutus"; "Medea"; "Phaedra"] clf)
    as (errors & Herrors & Hlisted & _).
  - reflexivity.
  - reflexivity.
  - simpl. apply (bool_decide_unpack _). vm_compute. reflexivity.
  - simpl. discriminate.
  - right. exists "Cicero". split; apply (bool_decide_unpack _); vm_compute; reflexivity.
  - exists errors. split; [exact Herrors|].
    apply (Hlisted 0 "Cicero" "Seneca" "DeOfficiis").
    + reflexivity.
    + reflexivity.
    + reflexivity.
    + discriminate.
    + apply (bool_decide_unpack _). vm_compute. reflexivity.
    + apply (bool_decide_unpack _). vm_compute. reflexivity.
Defined.

Lemma no_records_iff_no_misclassification_witness :
  let clf := {| NearestCentroid.classes_ := ["Cicero"; "Seneca"];
                NearestCentroid.centroids_ := [[0%Q]; [1%Q]] |} in
  exists errors,
    identify_confusion_errors
      ["Cicero"; "Seneca"; "Cicero"] ["Cicero"; "Seneca"; "Cicero"]
      ["DeOfficiis"; "DeIra"; "Brutus"] clf = Ok errors
    /\ errors = [].
Proof.
  intros clf.
  destruct (no_records_iff_no_misclassification
              ["Cicero"; "Seneca"; "Cicero"] ["Cicero"; "Seneca"; "Cicero"]
              ["DeOfficiis"; "DeIra"; "Brutus"] clf)
    as (errors & Herrors & Hiff).
  - reflexivity.
  - reflexivity.
  - simpl. apply (bool_decide_unpack _). vm_compute. reflexivity.
  - simpl. discriminate.
  - right. exists "Cicero". split; apply (bool_decide_unpack _); vm_compute; reflexivity.
  - exists errors. split; [exact Herrors|]. apply Hiff.
    intros [|[|[|idx]]] l p Hl Hp _ _; simpl in Hl, Hp; congruence.
Defined.

(** ** Counting with filters *)

Lemma length_filter_or {A} (P Q : A -> Prop)
    `{forall x, Decision (P x)} `{forall x, Decision (Q x)} (l : list A) :
  (forall x, P x -> Q x -> False) ->
  length (filter P l) + length (filter Q l)
  = length (filter (fun x => P x \/ Q x) l).
Proof.
  intros Hdisj. induction l as [|x l IH]; [done|].
  rewrite !filter_cons.
  destruct (decide (P x)) as [HP|HP], (decide (Q x)) as [HQ|HQ]; simpl.
  - destruct (Hdisj x HP HQ).
  - rewrite decide_True by by left. simpl. lia.
  - rewrite decide_True by by right. simpl. lia.
  - rewrite decide_False by tauto. lia.
Qed.

Lemma length_filter_classes {A} (f : A -> string) (cs : list string) (l : list A) :
  NoDup cs ->
  sum_list_with (fun c => length (filter (fun x => f x = c) l)) cs
  = length (filter (fun x => f x ∈ cs) l).
Proof.
  induction 1 as [|c cs Hfresh Hnodup IH]; simpl.
  - induction l as [|x l IHl]; [done|]. rewrite filter_cons.
    rewrite decide_False; [done|]. apply not_elem_of_nil.
  - rewrite IH. rewrite length_filter_or.
    + f_equal. apply list_filter_iff. intros x. rewrite elem_of_cons. split; [intros [?|?]; auto|intros [?|?]; auto].
    + intros x <- Hin. by apply Hfresh.
Qed.

Lemma length_filter_all {A} (P : A -> Prop) `{forall x, Decision (P x)} (l : list A) :
  Forall P l -> length (filter P l) = length l.
Proof.
  induction 1 as [|x l HP _ IH]; [done|].
  rewrite filter_cons, decide_True by done. simpl. by rewrite IH.
Qed.

Lemma sum_list_with_lookup {A} (g : A -> nat) (F : nat -> nat) (l : list A) (k : nat) :
  (forall i x, l !! i = Some x -> F (k + i) = g x) ->
  sum_list_with F (seq k (length l)) = sum_list_with g l.
Proof.
  revert k. induction l as [|x l IH]; intros k HF; simpl; [done|].
  rewrite <- (HF 0 x eq_refl), Nat.add_0_r. f_equal.
  apply IH. intros i y Hi. rewrite <- (HF (S i) y Hi). f_equal. lia.
Qed.

Lemma length_filter_zip_fst (c : string) (l k : list string) :
  length k = length l ->
  length (filter (fun p : string * string => p.1 = c) (zip l k))
  = length (filter (fun x => x = c) l).
Proof.
  revert k. induction l as [|x l IH]; intros [|y k] Hlen; simpl in *; try done.
  rewrite !filter_cons. simpl. case_decide; simpl; rewrite IH by lia; done.
Qed.

Lemma length_filter_zip_snd (c : string) (l k : list string) :
  length k = length l ->
  length (filter (fun p : string * string => p.2 = c) (zip l k))
  = length (filter (fun x => x = c) k).
Proof.
  revert k. induction l as [|x l IH]; intros [|y k] Hlen; simpl in *; try done.
  rewrite !filter_cons. simpl. case_decide; simpl; rewrite IH by lia; done.
Qed.

Lemma sum_list_with_add {A} (f g : A -> nat) (l : list A) :
  sum_list_with f l + sum_list_with g l = sum_list_with (fun x => f x + g x) l.
Proof. induction l as [|x l IH]; simpl; lia. Qed.

(** ** The confusion matrix, entry by entry *)

Lemma confusion_matrix_entries (y_true y_pred labels : list string)
    (cm : list (list nat)) :
  confusion_matrix y_true y_pred labels = Ok cm ->
  cm = map (fun i => map (cm_count labels y_true y_pred i) (seq 0 (length labels)))
           (seq 0 (length labels)).
Proof.
  unfold confusion_matrix. destruct (negb _); [done|].
  destruct (length labels =? 0); [done|].
  case_bool_decide as Hnil.
  - intros [= <-]. subst. apply list_eq_same_length with (length labels).
    + by rewrite length_map, length_seq.
    + by rewrite length_replicate.
    + intros i row row' Hi. rewrite lookup_replicate_2 by done.
      rewrite list_lookup_fmap, lookup_seq_lt by done. simpl. intros [= <-] [= <-].
      apply list_eq_same_length with (length labels).
      * by rewrite length_map, length_seq.
      * by rewrite length_replicate.
      * intros j c c' Hj. rewrite lookup_replicate_2 by done.
        rewrite list_lookup_fmap, lookup_seq_lt by done. simpl. by intros [= <-] [= <-].
  - destruct (negb _); [done|]. by intros [= <-].
Qed.

Lemma confusion_matrix_cell (y_true y_pred labels : list string)
    (cm : list (list nat)) (i j : nat) :
  confusion_matrix y_true y_pred labels = Ok cm ->
  i < length labels -> j < length labels ->
  Spec.cell cm i j = cm_count labels y_true y_pred i j.
Proof.
  intros -> %confusion_matrix_entries Hi Hj. unfold Spec.cell.
  rewrite list_lookup_fmap, lookup_seq_lt by done. simpl.
  by rewrite list_lookup_fmap, lookup_seq_lt.
Qed.

Lemma confusion_matrix_shape (y_true y_pred labels : list string)
    (cm : list (list nat)) :
  confusion_matrix y_true y_pred labels = Ok cm ->
  length cm = length labels /\ Forall (fun row => length row = length labels) cm.
Proof.
  intros -> %confusion_matrix_entries. split; [by rewrite length_map, length_seq|].
  apply Forall_forall. intros row (i & -> & _)%list_elem_of_fmap.
  by rewrite length_map, length_seq.
Qed.

Lemma trace_off_diagonal (cm : list (list nat)) :
  Totals.trace cm + Spec.off_diagonal_total cm
  = sum_list_with (Totals.row_total cm) (seq 0 (length cm)).
Proof.
  unfold Totals.trace, Spec.off_diagonal_total, Totals.row_total.
  rewrite sum_list_with_add. apply sum_list_with_ext_in. intros i Hi%elem_of_seq.
  assert (Spec.cell cm i i
          = sum_list_with (fun j => if decide (j = i) then Spec.cell cm i j else 0)
                          (seq 0 (length cm))) as ->.
  { rewrite (sum_list_with_single (fun j => Spec.cell cm i j)).
    by rewrite decide_True by lia. }
  rewrite sum_list_with_add. apply sum_list_with_ext_in. intros j _.
  destruct (decide (j = i)) as [->|Hne].
  - rewrite decide_True by done. lia.
  - rewrite decide_False by congruence. lia.
Qed.

Section Marginals.

Variables y_true y_pred labels : list string.
Variable cm : list (list nat).

Hypothesis cm_Ok : confusion_matrix y_true y_pred labels = Ok cm.
Hypothesis labels_NoDup : NoDup labels.
Hypothesis aligned : length y_pred = length y_true.

Lemma row_total_count (i : nat) (c : string) :
  Forall (fun p => p ∈ labels) y_pred ->
  labels !! i = Some c ->
  Totals.row_total cm i = length (filter (fun l => l = c) y_true).
Proof using All.
  intros Hpred Hi. unfold Totals.row_total.
  destruct (confusion_matrix_shape _ _ _ _ cm_Ok) as [-> _].
  apply lookup_lt_Some in Hi as Hlt.
  rewrite (sum_list_with_lookup
             (fun cj => length (filter (fun p : string * string => p.1 = c /\ p.2 = cj)
                                       (zip y_true y_pred)))).
  - rewrite (sum_list_with_ext_in _
      (fun cj => length (filter (fun p : string * string => p.2 = cj)
                                (filter (fun p : string * string => p.1 = c)
                                        (zip y_true y_pred))))).
    + rewrite (length_filter_classes (fun p : string * string => p.2)) by done.
      rewrite length_filter_all.
      * by apply length_filter_zip_fst.
      * apply Forall_forall. intros [l p] [_ Hin]%list_elem_of_filter. simpl.
        apply elem_of_zip_r in Hin. rewrite Forall_forall in Hpred. by apply Hpred.
    + intros cj _. rewrite list_filter_filter. f_equal. apply list_filter_iff.
      intros p. tauto.
  - intros j cj Hj. simpl. apply lookup_lt_Some in Hj as Hjlt.
    rewrite (confusion_matrix_cell _ _ _ _ _ _ cm_Ok) by done.
    by apply cm_count_NoDup.
Qed.

Lemma column_total_count (j : nat) (c : string) :
  Forall (fun l => l ∈ labels) y_true ->
  labels !! j = Some c ->
  Totals.column_total cm j = length (filter (fun p => p = c) y_pred).
Proof using All.
  intros Htrue Hj. unfold Totals.column_total.
  destruct (confusion_matrix_shape _ _ _ _ cm_Ok) as [-> _].
  apply lookup_lt_Some in Hj as Hlt.
  rewrite (sum_list_with_lookup
             (fun ci => length (filter (fun p : string * string => p.1 = ci /\ p.2 = c)
                                       (zip y_true y_pred)))).
  - rewrite (sum_list_with_ext_in _
      (fun ci => length (filter (fun p : string * string => p.1 = ci)
                                (filter (fun p : string * string => p.2 = c)
                                        (zip y_true y_pred))))).
    + rewrite (length_filter_classes (fun p : string * string => p.1)) by done.
      rewrite length_filter_all.
      * by apply length_filter_zip_snd.
      * apply Forall_forall. intros [l p] [_ Hin]%list_elem_of_filter. simpl.
        apply elem_of_zip_l in Hin. rewrite Forall_forall in Htrue. by apply Htrue.
    + intros ci _. by rewrite list_filter_filter.
  - intros i ci Hi. simpl. apply lookup_lt_Some in Hi as Hilt.
    rewrite (confusion_matrix_cell _ _ _ _ _ _ cm_Ok) by done.
    by apply cm_count_NoDup.
Qed.

Lemma all_rows_total :
  Forall (fun p => p ∈ labels) y_pred ->
  Forall (fun l => l ∈ labels) y_true ->
  sum_list_with (Totals.row_total cm) (seq 0 (length cm)) = length y_true.
Proof using All.
  intros Hpred Htrue.
  destruct (confusion_matrix_shape _ _ _ _ cm_Ok) as [Hlen _]. rewrite Hlen.
  rewrite (sum_list_with_lookup (fun c => length (filter (fun l => l = c) y_true))).
  - rewrite (length_filter_classes (fun l : string => l)) by done.
    by apply length_filter_all.
  - intros i c Hi. by apply row_total_count.
Qed.

End Marginals.

(** ** The trained model and its predictions *)

Lemma fit_classes (X : matrix) (y : list string) (clf : NearestCentroid.t) :
  NearestCentroid.fit X y = Ok clf ->
  NoDup (NearestCentroid.classes_ clf)
  /\ Sorted String.le (NearestCentroid.classes_ clf)
  /\ (forall c, c ∈ NearestCentroid.classes_ clf <-> c ∈ y).
Proof.
  intros (_ & _ & _ & -> & _)%fit_Ok. split; [apply np_unique_NoDup|].
  split; [apply Sorted_merge_sort; apply _|]. intros c. apply elem_of_np_unique.
Qed.

Lemma predict_classes (X0 : matrix) (y : list string) (clf : NearestCentroid.t)
    (X : matrix) (preds : list string) :
  NearestCentroid.fit X0 y = Ok clf ->
  NearestCentroid.predict clf X = Ok preds ->
  length preds = length X /\ Forall (fun p => p ∈ NearestCentroid.classes_ clf) preds.
Proof.
  intros Hfit Hpreds.
  destruct (predict_Ok X0 y clf X Hfit) as (preds' & Hpreds' & Hlen & Hat).
  rewrite Hpreds in Hpreds'. injection Hpreds' as <-. split; [done|].
  apply Forall_forall. intros p [i Hi]%list_elem_of_lookup.
  destruct (lookup_lt_is_Some_2 X i) as [x Hx].
  { rewrite <- Hlen. by eapply lookup_lt_Some. }
  destruct (Hat i x Hx) as (k & nearest & _ & Hk & Hp).
  rewrite Hi in Hp. injection Hp as ->. by eapply list_elem_of_lookup_2.
Qed.

Section TrainedFacts.

Variable tfidf_weights : TfidfVectorizer -> list string -> result matrix.
Variable svd_solver : TruncatedSVD -> matrix -> result matrix.

Local Abbreviation pipeline := (load_and_train_model tfidf_weights svd_solver).

(** X7: what holds of every model the pipeline returns: the classes
    are the labels of the corpus, without repetition and in increasing
    order, and there are at least two; there is one centroid per class, of
    the width of the reduced matrix, which has at least one column; and
    the reduced rows, the labels, the display names and the texts are
    equally many. *)
Theorem trained_model_invariants (listing : directory) (lo hi : Z) (m : trained) :
  pipeline listing lo hi = Ok m ->
  let clf := t_clf m in
  NoDup (NearestCentroid.classes_ clf)
  /\ Sorted String.le (NearestCentroid.classes_ clf)
  /\ (forall c, c ∈ NearestCentroid.classes_ clf <-> c ∈ t_labels m)
  /\ 2 <= length (NearestCentroid.classes_ clf)
  /\ length (NearestCentroid.centroids_ clf) = length (NearestCentroid.classes_ clf)
  /\ Forall (fun c => length c = n_features (t_X_reduced m))
            (NearestCentroid.centroids_ clf)
  /\ 0 < n_features (t_X_reduced m)
  /\ length (t_X_reduced m) = length (t_labels m)
  /\ length (t_filenames m) = length (t_labels m)
  /\ length (t_texts m) = length (t_labels m).
Proof.
  intros Hm clf. destruct (trained_fit _ _ _ _ _ _ Hm) as [Hfit Hnames].
  destruct (fit_classes _ _ _ Hfit) as (Hnodup & Hsorted & Hmem).
  destruct (fit_centroids_length _ _ _ Hfit) as [Hlen Hwidth].
  destruct (fit_Ok _ _ _ Hfit) as (HX & Hfeat & Hcls & _).
  repeat (split; [done || lia|]).
  destruct (load_and_train_model_Ok _ _ _ _ _ _ Hm)
    as (c & X & Hc%read_corpus_lengths & _ & _ & _ & _ & _ & -> & -> & _). lia.
Qed.

(** X8: on a trained model the prediction of line 103 succeeds, gives
    one label per document, and every predicted label is the label of some
    document of the corpus. *)
Theorem predictions_are_corpus_authors (listing : directory) (lo hi : Z) (m : trained) :
  pipeline listing lo hi = Ok m ->
  exists preds,
    y_pred m = Ok preds
    /\ length preds = length (t_labels m)
    /\ forall p, p ∈ preds -> p ∈ t_labels m.
Proof.
  intros Hm. destruct (trained_fit _ _ _ _ _ _ Hm) as [Hfit _].
  destruct (predict_Ok _ _ _ (t_X_reduced m) Hfit) as (preds & Hpreds & _).
  destruct (predict_classes _ _ _ _ _ Hfit Hpreds) as [Hlen Hcls].
  exists preds. split; [done|]. split; [apply fit_Ok in Hfit; lia|].
  intros p Hp. rewrite Forall_forall in Hcls. by apply (fit_classes _ _ _ Hfit), Hcls.
Qed.

(** X9: on a trained model the confusion matrix of line 104 is
    computed (no label is outside the vocabulary); it is square with one
    row and one column per class; the row of a class sums to the number of
    its documents, its column to the number of documents predicted as it;
    and the diagonal and the off-diagonal entries together count every
    document once. *)
Theorem confusion_matrix_counts_every_document (listing : directory) (lo hi : Z)
    (m : trained) :
  pipeline listing lo hi = Ok m ->
  exists preds table,
    y_pred m = Ok preds
    /\ cm m = Ok table
    /\ length table = length (NearestCentroid.classes_ (t_clf m))
    /\ Forall (fun row => length row = length (NearestCentroid.classes_ (t_clf m))) table
    /\ (forall i c, NearestCentroid.classes_ (t_clf m) !! i = Some c ->
          Totals.row_total table i = length (filter (fun l => l = c) (t_labels m))
          /\ Totals.column_total table i = length (filter (fun p => p = c) preds))
    /\ Totals.trace table + Spec.off_diagonal_total table = length (t_filenames m).
Proof.
  intros Hm. destruct (trained_fit _ _ _ _ _ _ Hm) as [Hfit Hnames].
  destruct (predict_Ok _ _ _ (t_X_reduced m) Hfit) as (preds & Hpreds & _).
  destruct (predict_classes _ _ _ _ _ Hfit Hpreds) as [Hlen Hcls].
  destruct (fit_classes _ _ _ Hfit) as (Hnodup & _ & Hmem).
  destruct (fit_Ok _ _ _ Hfit) as (HX & _ & Hn & _).
  assert (length preds = length (t_labels m)) as Haligned by lia.
  assert (Forall (fun l => l ∈ NearestCentroid.classes_ (t_clf m)) (t_labels m)) as Htrue.
  { apply Forall_forall. intros l Hl. by apply Hmem. }
  destruct (confusion_matrix_Ok (t_labels m) preds (NearestCentroid.classes_ (t_clf m)))
    as (table & Htable & _); [done|done|..].
  { intros Hnil. rewrite Hnil in Hn. simpl in Hn. lia. }
  { destruct (t_labels m) as [|l ls] eqn:Hl; [by left|right].
    exists l. split; [left|]. rewrite Forall_forall in Htrue. apply Htrue. left. }
  exists preds, table. split; [done|].
  split; [unfold cm, y_pred in *; by rewrite Hpreds|].
  destruct (confusion_matrix_shape _ _ _ _ Htable) as [Hrows Hcols].
  split; [done|]. split; [done|]. split.
  - intros i c Hi. split.
    + by apply (row_total_count (t_labels m) preds (NearestCentroid.classes_ (t_clf m))).
    + by apply (column_total_count (t_labels m) preds (NearestCentroid.classes_ (t_clf m))).
  - rewrite trace_off_diagonal.
    rewrite (all_rows_total (t_labels m) preds (NearestCentroid.classes_ (t_clf m)));
      [lia|done..].
Qed.

End TrainedFacts.

Lemma trained_model_invariants_witness :
  exists m,
    load_and_train_model Standin.tfidf Standin.svd Sample.latin 2 4 = Ok m
    /\ NoDup (NearestCentroid.classes_ (t_clf m))
    /\ Sorted String.le (NearestCentroid.classes_ (t_clf m))
    /\ 2 <= length (NearestCentroid.classes_ (t_clf m)).
Proof.
  destruct (load_and_train_model Standin.tfidf Standin.svd Sample.latin 2 4)
    as [m|] eqn:Hm; [|vm_compute in Hm; discriminate].
  destruct (trained_model_invariants _ _ _ _ _ _ Hm) as (Hnodup & Hsorted & _ & Htwo & _).
  exists m. split; [reflexivity|]. split; [exact Hnodup|]. split; [exact Hsorted|exact Htwo].
Defined.

Lemma predictions_are_corpus_authors_witness :
  exists m preds,
    load_and_train_model Standin.tfidf Standin.svd Sample.latin 2 4 = Ok m
    /\ y_pred m = Ok preds
    /\ length preds = length (t_labels m).
Proof.
  destruct (load_and_train_model Standin.tfidf Standin.svd Sample.latin 2 4)
    as [m|] eqn:Hm; [|vm_compute in Hm; discriminate].
  destruct (predictions_are_corpus_authors _ _ _ _ _ _ Hm) as (preds & Hpreds & Hlen & _).
  exists m, preds. split; [reflexivity|]. split; [exact Hpreds|exact Hlen].
Defined.

Lemma confusion_matrix_counts_every_document_witness :
  exists m table,
    load_and_train_model Standin.tfidf Standin.svd Sample.latin 2 4 = Ok m
    /\ cm m = Ok table
    /\ Totals.trace table + Spec.off_diagonal_total table = length (t_filenames m).
Proof.
  destruct (load_and_train_model Standin.tfidf Standin.svd Sample.latin 2 4)
    as [m|] eqn:Hm; [|vm_compute in Hm; discriminate].
  destruct (confusion_matrix_counts_every_document _ _ _ _ _ _ Hm)
    as (preds & table & _ & Htable & _ & _ & _ & Htotal).
  exists m, table. split; [reflexivity|]. split; [exact Htable|exact Htotal].
Defined.

(** ** Highlighting the minimum *)

Lemma foldl_min_spec (v : Q) (s : list Q) :
  let m := foldl (fun m w => if Qle_bool m w then m else w) v s in
  m ∈ v :: s /\ forall w, w ∈ v :: s -> (m <= w)%Q.
Proof.
  revert v. induction s as [|x s IH]; intros v; simpl.
  - split; [left|]. intros w ->%list_elem_of_singleton. apply Qle_refl.
  - destruct (Qle_bool v x) eqn:Hvx.
    + destruct (IH v) as [Hin Hmin]. split.
      * apply elem_of_cons in Hin as [->|Hin]; [left|right; by right].
      * intros w [->|[->|Hw]%elem_of_cons]%elem_of_cons.
        -- apply Hmin. left.
        -- eapply Qle_trans; [apply Hmin; left|]. by apply Qle_bool_iff.
        -- apply Hmin. by right.
    + destruct (IH x) as [Hin Hmin]. split; [by right|].
      assert (x <= v)%Q as Hxv.
      { apply Qlt_le_weak, Qnot_le_lt. intros Hle%Qle_bool_iff. congruence. }
      intros w [->|[->|Hw]%elem_of_cons]%elem_of_cons.
      * eapply Qle_trans; [apply Hmin; left|done].
      * apply Hmin. left.
      * apply Hmin. by right.
Qed.

Lemma series_min_spec (s : list Q) (m : Q) :
  series_min s = Some m -> m ∈ s /\ forall w, w ∈ s -> (m <= w)%Q.
Proof.
  destruct s as [|v s]; simpl; [done|]. intros [= <-]. apply foldl_min_spec.
Qed.

Lemma series_min_is_Some (s : list Q) : s <> [] -> is_Some (series_min s).
Proof. destruct s; [done|]. intros _. by eexists. Qed.

Lemma highlight_min_lookup (s : list Q) (k : nat) (v : Q) :
  s !! k = Some v ->
  exists m, series_min s = Some m /\ m ∈ s /\ (forall w, w ∈ s -> (m <= w)%Q)
    /\ highlight_min s !! k
       = Some (if Qeq_bool v m then "background-color: lightgreen" else "").
Proof.
  intros Hk. destruct (series_min_is_Some s) as [m Hm].
  { intros ->. done. }
  destruct (series_min_spec s m Hm) as [Hin Hmin]. exists m.
  split; [done|]. split; [done|]. split; [done|].
  unfold highlight_min. by rewrite list_lookup_fmap, Hk, Hm.
Qed.

Lemma highlight_min_green (s : list Q) (k : nat) (v : Q) :
  s !! k = Some v ->
  (forall w, w ∈ s -> (v <= w)%Q) ->
  highlight_min s !! k = Some "background-color: lightgreen".
Proof.
  intros Hk Hall. destruct (highlight_min_lookup s k v Hk) as (m & _ & Hin & Hmin & ->).
  assert (Qeq_bool v m = true) as ->; [|done].
  apply Qeq_bool_iff, Qle_antisym; [by apply Hall|].
  apply Hmin. by eapply list_elem_of_lookup_2.
Qed.

(** X10: [highlight_min] styles every entry of the series: an entry is
    green exactly when no entry is smaller, so all tied minima are green,
    and unstyled exactly when some entry is smaller; a series that is not
    empty has a green entry. *)
Theorem highlight_min_marks_the_minima (s : list Q) :
  length (highlight_min s) = length s
  /\ (forall k v, s !! k = Some v ->
        (highlight_min s !! k = Some "background-color: lightgreen"
         <-> forall w, w ∈ s -> (v <= w)%Q)
        /\ (highlight_min s !! k = Some ""
            <-> exists w, w ∈ s /\ (w < v)%Q))
  /\ (s <> [] ->
      exists k, highlight_min s !! k = Some "background-color: lightgreen").
Proof.
  split; [unfold highlight_min; by rewrite length_map|].
  split.
  - intros k v Hk. destruct (highlight_min_lookup s k v Hk) as (m & _ & Hin & Hmin & ->).
    destruct (Qeq_bool v m) eqn:Hvm.
    + apply Qeq_bool_iff in Hvm. split.
      * split; [|done]. intros _ w Hw. rewrite Hvm. by apply Hmin.
      * split; [done|]. intros (w & Hw & Hlt). exfalso.
        apply (Qlt_not_le _ _ Hlt). rewrite Hvm. by apply Hmin.
    + assert (m < v)%Q as Hlt.
      { apply Qnot_le_lt. intros Hle. apply Qeq_bool_neq in Hvm. apply Hvm.
        apply Qle_antisym; [done|]. apply Hmin. by eapply list_elem_of_lookup_2. }
      split.
      * split; [done|]. intros Hall. exfalso.
        apply (Qlt_not_le _ _ Hlt). by apply Hall.
      * split; [|done]. intros _. by exists m.
  - intros Hne. destruct (series_min_is_Some s Hne) as [m Hm].
    destruct (series_min_spec s m Hm) as [[k Hk]%list_elem_of_lookup Hmin].
    exists k. by apply (highlight_min_green s k m).
Qed.

(** ** The columns of the table *)

Lemma keys_dict_set_fresh (k : string) (v : cell) (d : dict) :
  k ∉ keys d -> keys (dict_set k v d) = keys d ++ [k].
Proof.
  unfold keys. induction d as [|[k' v'] d IH]; simpl; [done|].
  intros Hk. apply not_elem_of_cons in Hk as [Hne Hk].
  rewrite decide_False by done. simpl. f_equal. by apply IH.
Qed.

Lemma fill_distances_keys (distances : list (list distance)) (i : nat)
    (clf_classes : list string) (row row' : dict) (j : nat) :
  NoDup clf_classes ->
  (forall a, a ∈ clf_classes -> distance_column a ∉ keys row) ->
  fill_distances distances i row j clf_classes = Ok row' ->
  keys row' = keys row ++ (distance_column <$> clf_classes).
Proof.
  intros Hnodup. revert row j.
  induction Hnodup as [|author rest Hfresh Hnodup IH]; intros row j Hnew; simpl.
  - intros [= <-]. by rewrite app_nil_r.
  - intros (di & _ & (d & _ & Hrest)%bind_Ok)%bind_Ok.
    apply IH in Hrest.
    + rewrite Hrest, keys_dict_set_fresh by (apply Hnew; left).
      by rewrite <- app_assoc.
    + intros a Ha. rewrite keys_dict_set_fresh by (apply Hnew; left).
      rewrite elem_of_app, list_elem_of_singleton. intros [Hin|Heq].
      * by apply (Hnew a); [right|].
      * apply (inj _) in Heq. by subst.
Qed.

Lemma table_row_keys (labels : list string) (distances : list (list distance))
    (clf_classes : list string) (i : nat) (fname : string) (row : dict) :
  NoDup clf_classes ->
  table_row labels distances clf_classes i fname = Ok row ->
  keys row = ["Texto"; "Autor"] ++ (distance_column <$> clf_classes) ++ ["Más cercano"].
Proof.
  intros Hnodup. unfold table_row.
  intros (author & _ & (filled & Hfilled & (di & _ & (k & _ & (closest & _ & [= <-])
    %bind_Ok)%bind_Ok)%bind_Ok)%bind_Ok)%bind_Ok.
  apply fill_distances_keys in Hfilled; [|done|].
  - rewrite keys_dict_set_fresh.
    + rewrite Hfilled. simpl. done.
    + rewrite Hfilled. simpl. rewrite !not_elem_of_cons.
      split; [done|]. split; [done|].
      intros (a & Ha & _)%list_elem_of_fmap. done.
  - intros a _. simpl. rewrite !not_elem_of_cons. unfold distance_column.
    split; [done|]. split; [done|]. apply not_elem_of_nil.
Qed.

Lemma table_rows_keys (labels : list string) (distances : list (list distance))
    (clf_classes filenames : list string) (i : nat) (table : list dict) :
  NoDup clf_classes ->
  table_rows labels distances clf_classes i filenames = Ok table ->
  Forall (fun row => keys row
            = ["Texto"; "Autor"] ++ (distance_column <$> clf_classes) ++ ["Más cercano"])
         table.
Proof.
  intros Hnodup. revert i table.
  induction filenames as [|fname rest IH]; intros i table; simpl.
  - intros [= <-]. constructor.
  - intros (row & Hrow & (rows & Hrows & [= <-])%bind_Ok)%bind_Ok.
    constructor; [by eapply table_row_keys|by eapply IH].
Qed.

Lemma add_columns_known (seen ks : list string) :
  (forall k, k ∈ ks -> k ∈ seen) -> add_columns seen ks = seen.
Proof.
  induction ks as [|k ks IH]; intros Hks; simpl; [done|].
  rewrite bool_decide_eq_true_2 by (apply Hks; left).
  apply IH. intros k' Hk'. apply Hks. by right.
Qed.

Lemma add_columns_fresh (seen ks : list string) :
  NoDup (seen ++ ks) -> add_columns seen ks = seen ++ ks.
Proof.
  revert seen. induction ks as [|k ks IH]; intros seen Hnodup; simpl.
  - by rewrite app_nil_r.
  - rewrite bool_decide_eq_false_2.
    + rewrite IH; rewrite <- app_assoc; done.
    + apply NoDup_app in Hnodup as (_ & Hdisj & _). intros Hk.
      apply (Hdisj k Hk). left.
Qed.

Lemma DataFrame_columns_uniform (K : list string) (rows : list dict) :
  NoDup K -> rows <> [] -> Forall (fun row => keys row = K) rows ->
  DataFrame_columns rows = K.
Proof.
  intros Hnodup Hne Hrows. unfold DataFrame_columns.
  destruct Hrows as [|row rows Hrow Hrows]; [done|]. simpl. rewrite Hrow.
  rewrite (add_columns_fresh [] K) by done. simpl. clear Hrow Hne.
  induction Hrows as [|row' rows Hrow' _ IH]; simpl; [done|].
  rewrite Hrow', add_columns_known by done. exact IH.
Qed.

Lemma startswith_distance_column (author : string) :
  startswith (distance_column author) "Distancia" = true.
Proof. reflexivity. Qed.

Lemma filter_distance_columns (authors : list string) :
  filter (fun col => startswith col "Distancia") (distance_column <$> authors)
  = distance_column <$> authors.
Proof.
  induction authors as [|a authors IH]; [done|].
  rewrite fmap_cons, filter_cons, decide_True.
  - by rewrite IH.
  - by rewrite startswith_distance_column.
Qed.

Lemma distance_column_NoDup (authors : list string) :
  NoDup authors ->
  NoDup (["Texto"; "Autor"] ++ (distance_column <$> authors) ++ ["Más cercano"]).
Proof.
  intros Hnodup.
  assert (forall k, k ∈ distance_column <$> authors -> startswith k "Distancia" = true)
    as Hstart.
  { intros k (a & -> & _)%list_elem_of_fmap. apply startswith_distance_column. }
  simpl. apply NoDup_cons. split.
  { rewrite not_elem_of_cons, not_elem_of_app, list_elem_of_singleton.
    split; [done|]. split; [|done]. intros Hin%Hstart. discriminate. }
  apply NoDup_cons. split.
  { rewrite not_elem_of_app, list_elem_of_singleton.
    split; [|done]. intros Hin%Hstart. discriminate. }
  apply NoDup_app. split; [|split].
  - apply NoDup_fmap_2; [|done]. unfold distance_column. apply _.
  - intros k Hin%Hstart ->%list_elem_of_singleton. discriminate.
  - apply NoDup_singleton.
Qed.

(** ** The displayed columns and their styles *)

Lemma cols_of_table_columns (authors : list string) :
  cols (["Texto"; "Autor"] ++ (distance_column <$> authors) ++ ["Más cercano"])
  = ["Texto"; "Autor"; "Más cercano"] ++ (distance_column <$> authors).
Proof.
  unfold cols. f_equal.
  change (["Texto"; "Autor"] ++ (distance_column <$> authors) ++ ["Más cercano"])
    with ("Texto" :: "Autor" :: ((distance_column <$> authors) ++ ["Más cercano"])).
  rewrite filter_cons_False by (intros H; exact H).
  rewrite filter_cons_False by (intros H; exact H).
  rewrite filter_app, filter_distance_columns.
  rewrite filter_cons_False by (intros H; exact H). by rewrite filter_nil, app_nil_r.
Qed.

Lemma dist_cols_of_cols (authors : list string) :
  dist_cols (["Texto"; "Autor"; "Más cercano"] ++ (distance_column <$> authors))
  = distance_column <$> authors.
Proof.
  unfold dist_cols.
  change (["Texto"; "Autor"; "Más cercano"] ++ (distance_column <$> authors))
    with ("Texto" :: "Autor" :: "Más cercano" :: (distance_column <$> authors)).
  do 3 rewrite filter_cons_False by (intros H; exact H).
  apply filter_distance_columns.
Qed.

Lemma select_columns_all (df_columns cols : list string) :
  (forall c, c ∈ cols -> c ∈ df_columns) ->
  select_columns df_columns cols = Some cols.
Proof.
  intros Hall. unfold select_columns.
  assert (forallb (fun col => bool_decide (col ∈ df_columns)) cols = true) as ->; [|done].
  apply forallb_forall. intros c Hc%list_elem_of_In. by apply bool_decide_eq_true, Hall.
Qed.

Section Columns.

Variable tfidf_weights : TfidfVectorizer -> list string -> result matrix.
Variable svd_solver : TruncatedSVD -> matrix -> result matrix.

Local Abbreviation pipeline := (load_and_train_model tfidf_weights svd_solver).

Lemma table_columns_of_trained (listing : directory) (lo hi : Z) (m : trained)
    (table : list dict) :
  pipeline listing lo hi = Ok m ->
  distance_matrix m = Ok table ->
  DataFrame_columns table
  = ["Texto"; "Autor"]
    ++ (distance_column <$> NearestCentroid.classes_ (t_clf m)) ++ ["Más cercano"].
Proof.
  intros Hm Htable. destruct (trained_fit _ _ _ _ _ _ Hm) as [Hfit Hnames].
  destruct (fit_classes _ _ _ Hfit) as (Hnodup & _ & Hmem).
  destruct (fit_Ok _ _ _ Hfit) as (_ & _ & Hn & _).
  apply DataFrame_columns_uniform.
  - by apply distance_column_NoDup.
  - destruct (distance_matrix_Ok m Hfit Hnames) as (table' & Htable' & Hlen & _).
    rewrite Htable in Htable'. injection Htable' as <-.
    intros ->. simpl in Hlen.
    destruct (NearestCentroid.classes_ (t_clf m)) as [|c cs] eqn:Hcls; [simpl in Hn; lia|].
    assert (c ∈ t_labels m) as Hc by (apply Hmem; left).
    destruct (t_labels m); [by apply not_elem_of_nil in Hc|].
    destruct (t_filenames m); simpl in *; lia.
  - by eapply table_rows_keys.
Qed.

(** X11: the columns of the displayed table of a trained model: the
    frame built from the rows has the columns [Texto], [Autor], one
    [Distancia_] column per class in the order of the classes, and
    [Más cercano], all different; the reordering of lines 157-158 selects
    existing columns only (no [KeyError]), keeps every column and moves
    [Más cercano] to the third place; and the styled columns of line 166
    are exactly the distance columns. *)
Theorem displayed_columns (listing : directory) (lo hi : Z) (m : trained) :
  pipeline listing lo hi = Ok m ->
  exists table,
    distance_matrix m = Ok table
    /\ DataFrame_columns table
       = ["Texto"; "Autor"]
         ++ (distance_column <$> NearestCentroid.classes_ (t_clf m)) ++ ["Más cercano"]
    /\ NoDup (DataFrame_columns table)
    /\ select_columns (DataFrame_columns table) (cols (DataFrame_columns table))
       = Some (["Texto"; "Autor"; "Más cercano"]
               ++ (distance_column <$> NearestCentroid.classes_ (t_clf m)))
    /\ cols (DataFrame_columns table) ≡ₚ DataFrame_columns table
    /\ dist_cols (cols (DataFrame_columns table))
       = distance_column <$> NearestCentroid.classes_ (t_clf m).
Proof.
  intros Hm. destruct (trained_fit _ _ _ _ _ _ Hm) as [Hfit Hnames].
  destruct (fit_classes _ _ _ Hfit) as (Hnodup & _ & _).
  destruct (distance_matrix_Ok m Hfit Hnames) as (table & Htable & _).
  exists table. split; [done|].
  rewrite (table_columns_of_trained _ _ _ _ _ Hm Htable).
  split; [done|]. split; [by apply distance_column_NoDup|].
  rewrite cols_of_table_columns.
  assert (["Texto"; "Autor"; "Más cercano"]
            ++ (distance_column <$> NearestCentroid.classes_ (t_clf m))
          ≡ₚ ["Texto"; "Autor"]
            ++ (distance_column <$> NearestCentroid.classes_ (t_clf m))
            ++ ["Más cercano"]) as Hperm.
  { simpl. do 2 f_equiv. apply Permutation_cons_append. }
  split; [|split; [done|apply dist_cols_of_cols]].
  apply select_columns_all. intros c Hc. by rewrite <- Hperm.
Qed.

Section Styles.

Variable round5 : distance -> Q.
Hypothesis round5_monotone :
  forall d1 d2, (squared d1 <= squared d2)%Q -> (round5 d1 <= round5 d2)%Q.

(** X12: for any rounding of distances that is monotone, the styling of
    line 167 is defined on every row of the table of a trained model, gives
    one style per class, and the distance column of the author shown under
    [Más cercano] is green. *)
Theorem nearest_author_is_highlighted (listing : directory) (lo hi : Z) (m : trained) :
  pipeline listing lo hi = Ok m ->
  exists table,
    distance_matrix m = Ok table
    /\ forall i row, table !! i = Some row ->
         exists styles k nearest,
           row_styles round5 (dist_cols (cols (DataFrame_columns table))) row
             = Some styles
           /\ length styles = length (NearestCentroid.classes_ (t_clf m))
           /\ NearestCentroid.classes_ (t_clf m) !! k = Some nearest
           /\ dict_get row "Más cercano" = Some (Str nearest)
           /\ styles !! k = Some "background-color: lightgreen".
Proof using All.
  intros Hm. destruct (trained_fit _ _ _ _ _ _ Hm) as [Hfit Hnames].
  destruct (fit_centroids_length _ _ _ Hfit) as [Hlen _].
  destruct (fit_Ok _ _ _ Hfit) as (HX & _).
  destruct (distance_matrix_Ok m Hfit Hnames) as (table & Htable & Htlen & Hrows).
  exists table. split; [done|]. intros i row Hi.
  rewrite (table_columns_of_trained _ _ _ _ _ Hm Htable).
  rewrite cols_of_table_columns, dist_cols_of_cols.
  destruct (lookup_lt_is_Some_2 (t_X_reduced m) i) as [x Hx].
  { rewrite HX, <- Hnames, <- Htlen. by eapply lookup_lt_Some. }
  destruct (Hrows i x Hx)
    as (row' & _ & _ & k & nearest & Hi' & _ & _ & Hk & Hnearest & _ & _ & Hclosest & Hcells).
  rewrite Hi in Hi'. injection Hi' as <-.
  set (di := map (euclidean x) (NearestCentroid.centroids_ (t_clf m))) in *.
  assert (mapM (fun col => dict_get row col ≫= number round5)
               (distance_column <$> NearestCentroid.classes_ (t_clf m))
          = Some (round5 <$> di)) as Hs.
  { apply mapM_Some. apply Forall2_fmap_l, Forall2_fmap_r.
    apply Forall2_same_length_lookup_2.
    - unfold di. by rewrite length_map.
    - intros j a d Ha Hd. unfold compose, distance_column.
      by rewrite (Hcells j a Ha), Hd. }
  exists (highlight_min (round5 <$> di)), k, nearest.
  split; [unfold row_styles; by rewrite Hs|].
  split; [unfold highlight_min, di; by rewrite !length_map|].
  split; [done|]. split; [done|].
  destruct (np_argmin_spec _ _ Hk) as (dk & Hdk & Hmin).
  apply (highlight_min_green _ k (round5 dk)).
  - by rewrite list_lookup_fmap, Hdk.
  - intros w (d & -> & [j Hj]%list_elem_of_lookup)%list_elem_of_fmap.
    apply round5_monotone. by apply (Hmin j d).
Qed.

End Styles.

End Columns.

Lemma displayed_columns_witness :
  exists m table,
    load_and_train_model Standin.tfidf Standin.svd Sample.latin 2 4 = Ok m
    /\ distance_matrix m = Ok table
    /\ select_columns (DataFrame_columns table) (cols (DataFrame_columns table))
       = Some (["Texto"; "Autor"; "Más cercano"]
               ++ (distance_column <$> NearestCentroid.classes_ (t_clf m))).
Proof.
  destruct (load_and_train_model Standin.tfidf Standin.svd Sample.latin 2 4)
    as [m|] eqn:Hm; [|vm_compute in Hm; discriminate].
  destruct (displayed_columns _ _ _ _ _ _ Hm) as (table & Htable & _ & _ & Hsel & _).
  exists m, table. split; [reflexivity|]. split; [exact Htable|exact Hsel].
Defined.

Lemma nearest_author_is_highlighted_witness :
  exists m table,
    load_and_train_model Standin.tfidf Standin.svd Sample.latin 2 4 = Ok m
    /\ distance_matrix m = Ok table
    /\ forall i row, table !! i = Some row ->
         exists styles k,
           row_styles squared (dist_cols (cols (DataFrame_columns table))) row
             = Some styles
           /\ styles !! k = Some "background-color: lightgreen".
Proof.
  destruct (load_and_train_model Standin.tfidf Standin.svd Sample.latin 2 4)
    as [m|] eqn:Hm; [|vm_compute in Hm; discriminate].
  destruct (nearest_author_is_highlighted Standin.tfidf Standin.svd squared
              (fun d1 d2 Hle => Hle) _ _ _ _ Hm) as (table & Htable & Hrows).
  exists m, table. split; [reflexivity|]. split; [exact Htable|].
  intros i row Hi. destruct (Hrows i row Hi) as (styles & k & nearest & Hs & _ & _ & _ & Hk).
  exists styles, k. split; [exact Hs|exact Hk].
Defined.

(** ** The locality parameters and the keys of the table *)

Section MoreTrainedFacts.

Variable tfidf_weights : TfidfVectorizer -> list string -> result matrix.
Variable svd_solver : TruncatedSVD -> matrix -> result matrix.

Local Abbreviation pipeline := (load_and_train_model tfidf_weights svd_solver).

Lemma trained_two_documents (listing : directory) (lo hi : Z) (m : trained) :
  pipeline listing lo hi = Ok m -> 2 <= length (t_X_reduced m).
Proof.
  intros Hm. destruct (trained_fit _ _ _ _ _ _ Hm) as [Hfit _].
  destruct (fit_classes _ _ _ Hfit) as (Hnodup & _ & Hmem).
  destruct (fit_Ok _ _ _ Hfit) as (HX & _ & Hn & _). rewrite HX.
  assert (NearestCentroid.classes_ (t_clf m) ⊆ t_labels m) as Hsub
    by (intros c; apply Hmem).
  apply NoDup_submseteq in Hsub; [|done]. apply submseteq_length in Hsub. lia.
Qed.

(** X13: the locality parameters on a trained model: the number of
    samples is the number of text files and at least two; the neighbour
    count lies in [2, 15], the perplexity between it and 30, and both equal
    for fewer than 48 documents; the perplexity never exceeds the number of
    samples and equals it exactly for a corpus of two documents, as does
    the neighbour count. *)
Theorem locality_of_a_trained_model (listing : directory) (lo hi : Z) (m : trained) :
  pipeline listing lo hi = Ok m ->
  let n := n_samples (t_X_reduced m) in
  let p := perplexity (t_X_reduced m) in
  let k := n_neighbors (t_X_reduced m) in
  (n = Z.of_nat (length (txt_entries listing))
   /\ 2 <= n
   /\ 2 <= k <= 15 /\ k <= p <= 30 /\ p <= n
   /\ (p = n <-> n = 2)
   /\ (k = n <-> n = 2)
   /\ (n < 48 -> k = p))%Z.
Proof.
  intros Hm n p k. pose proof (trained_two_documents _ _ _ _ Hm) as Htwo.
  destruct (trained_aligned _ _ _ _ _ _ Hm) as (Hrows & _).
  unfold n, p, k, perplexity, n_neighbors, n_samples. rewrite <- Hrows.
  assert (2 <= Z.of_nat (length (t_X_reduced m)))%Z as Hn by lia.
  generalize dependent (Z.of_nat (length (t_X_reduced m))). clear. intros z Hz.
  pose proof (Z.div_mod z 3 ltac:(lia)) as Hdiv.
  pose proof (Z.mod_pos_bound z 3 ltac:(lia)) as Hmod.
  repeat split; lia.
Qed.

(** X14: as the names of a directory are distinct, so are the display
    names of a trained model, and no two rows of the table of distances
    show the same text. *)
Theorem rows_are_keyed_by_text (listing : directory) (lo hi : Z) (m : trained) :
  NoDup (d_name <$> listing) ->
  pipeline listing lo hi = Ok m ->
  NoDup (t_filenames m)
  /\ exists table,
       distance_matrix m = Ok table
       /\ forall i j ri rj text,
            table !! i = Some ri -> table !! j = Some rj ->
            dict_get ri "Texto" = Some text -> dict_get rj "Texto" = Some text ->
            i = j.
Proof.
  intros Hnames Hm.
  assert (NoDup (t_filenames m)) as Hnodup.
  { destruct (load_and_train_model_Ok _ _ _ _ _ _ Hm)
      as (c & X & Hc & _ & _ & _ & _ & _ & _ & _ & ->).
    by eapply read_corpus_filenames_NoDup. }
  split; [done|]. destruct (trained_fit _ _ _ _ _ _ Hm) as [Hfit Haligned].
  destruct (fit_Ok _ _ _ Hfit) as (HX & _).
  destruct (distance_matrix_Ok m Hfit Haligned) as (table & Htable & Hlen & Hrows).
  exists table. split; [done|]. intros i j ri rj text Hi Hj Hti Htj.
  destruct (lookup_lt_is_Some_2 (t_X_reduced m) i) as [xi Hxi].
  { rewrite HX, <- Haligned, <- Hlen. by eapply lookup_lt_Some. }
  destruct (lookup_lt_is_Some_2 (t_X_reduced m) j) as [xj Hxj].
  { rewrite HX, <- Haligned, <- Hlen. by eapply lookup_lt_Some. }
  destruct (Hrows i xi Hxi) as (ri' & fi & _ & _ & _ & Hi' & Hfi & _ & _ & _ & Hti' & _).
  destruct (Hrows j xj Hxj) as (rj' & fj & _ & _ & _ & Hj' & Hfj & _ & _ & _ & Htj' & _).
  rewrite Hi in Hi'. injection Hi' as <-. rewrite Hj in Hj'. injection Hj' as <-.
  rewrite Hti in Hti'. rewrite Htj in Htj'. simplify_eq.
  by eapply NoDup_lookup.
Qed.

End MoreTrainedFacts.

Lemma locality_of_a_trained_model_witness :
  let listing :=
    [ Sample.file "Caesar_BelloGallico.txt" "gallia est omnis divisa in partes tres";
      Sample.file "Cicero_Catilinam.txt" "quo usque tandem abutere catilina patientia nostra" ] in
  exists m,
    load_and_train_model Standin.tfidf Standin.svd listing 2 4 = Ok m
    /\ n_samples (t_X_reduced m) = 2%Z
    /\ perplexity (t_X_reduced m) = n_samples (t_X_reduced m).
Proof.
  intros listing.
  destruct (load_and_train_model Standin.tfidf Standin.svd listing 2 4)
    as [m|] eqn:Hm; [|vm_compute in Hm; discriminate].
  destruct (locality_of_a_trained_model _ _ _ _ _ _ Hm) as (Hn & _ & _ & _ & _ & Hp & _).
  exists m. split; [reflexivity|]. split; [exact Hn|]. apply Hp. exact Hn.
Defined.

Lemma rows_are_keyed_by_text_witness :
  exists m table,
    NoDup (d_name <$> Sample.latin)
    /\ load_and_train_model Standin.tfidf Standin.svd Sample.latin 2 4 = Ok m
    /\ NoDup (t_filenames m)
    /\ distance_matrix m = Ok table.
Proof.
  assert (NoDup (d_name <$> Sample.latin)) as Hnames
    by (apply (bool_decide_unpack _); vm_compute; reflexivity).
  destruct (load_and_train_model Standin.tfidf Standin.svd Sample.latin 2 4)
    as [m|] eqn:Hm; [|vm_compute in Hm; discriminate].
  destruct (rows_are_keyed_by_text _ _ _ _ _ _ Hnames Hm) as (Hnodup & table & Htable & _).
  exists m, table. split; [exact Hnames|]. split; [reflexivity|].
  split; [exact Hnodup|exact Htable].
Defined.
